(** * dyson-alert: the humidity alert script [main.py]

    A shallow embedding of [main.py] and the properties of its threshold
    check, of its state file and of its configuration checks.

    The script runs once: it reads its configuration, connects to the
    device, loads [state.json], compares the humidity with the threshold,
    posts at most one alert to Pushover, writes [state.json] and returns.
    The embedding threads a world (the files on disk and the trace of the
    actions taken so far) through a small program monad with the three ways
    a Python call can end: it returns, it calls [sys.exit], or it raises.

    What is outside the script is an input of the run (record [host]): the
    process environment after [load_dotenv()], what [parser.parse_args()]
    makes of the command line, how [device.connect] answers, the humidity
    the device reports and how Pushover answers a request.  The [json]
    module is an interface ([JsonCodec]) with the one law the script relies
    on; [Module PyJson] implements it, so that runs can be computed.

    Calls of [logger] only print and are left out of the model; reading a
    sensor value of the connected device is taken to succeed. *)

From stdpp Require Import gmap strings list fin_maps pretty.
From Stdlib Require Import ZArith Ascii.

#[local] Open Scope Z_scope.

(** ** Python values *)

(** The values [json.load] produces.  The device reports the humidity as
    an [int] and the script stores it as such, so numbers are integers. *)
#[local] Unset Elimination Schemes.
Inductive pyobj : Type :=
  | PNone
  | PBool (b : bool)
  | PInt (z : Z)
  | PStr (s : string)
  | PList (l : list pyobj)
  | PDict (d : gmap string pyobj).
#[local] Set Elimination Schemes.

(** The exceptions the script can meet. *)
Inductive exn : Type :=
  (* builtins *)
  | FileNotFoundError | PermissionError | JSONDecodeError
  | TypeError | AttributeError
  (* requests.exceptions *)
  | HTTPError | ConnectionError | Timeout | RequestException
  (* libdyson.exceptions *)
  | DysonInvalidCredential | DysonConnectionRefused
  | DysonConnectTimeout | DysonNotConnected
  (* any other subclass of Exception *)
  | OtherException.

(** ** The world and the program monad *)

(** A path names a regular file with its text, or something [open]
    refuses with a permission error; a path not in the map does not exist. *)
Inductive node : Type :=
  | Regular (text : string)
  | Forbidden.

Inductive mode : Type := ModeR | ModeW.

(** The actions of a run that reach outside the process. *)
Inductive event : Type :=
  | Connect (serial credential device_type host : option string)
  | Open (path : string) (m : mode)
  | Post (token user : option string) (title message : string).

Record world : Type := World {
  files : gmap string node;
  trace : list event
}.

Inductive outcome (A : Type) : Type :=
  | Return (a : A)
  | SysExit (code : Z)
  | Raised (e : exn).
Arguments Return {A} a.
Arguments SysExit {A} code.
Arguments Raised {A} e.

Definition prog (A : Type) : Type := world → outcome A * world.

#[global] Instance prog_ret : MRet prog := λ A a w, (Return a, w).

#[global] Instance prog_bind : MBind prog := λ A B k m w,
  match m w with
  | (Return a, w') => k a w'
  | (SysExit c, w') => (SysExit c, w')
  | (Raised e, w') => (Raised e, w')
  end.

Definition sys_exit {A} (code : Z) : prog A := λ w, (SysExit code, w).

Definition raise {A} (e : exn) : prog A := λ w, (Raised e, w).

Definition emit (e : event) : prog () :=
  λ w, (Return (), World (files w) (trace w ++ [e])).

(** [try: body except ...:] with [handler e = Some k] when a clause
    matches [e].  [sys.exit] raises [SystemExit], which no clause of the
    script matches ([except Exception] does not). *)
Definition try_except {A} (body : prog A) (handler : exn → option (prog A))
    : prog A := λ w,
  match body w with
  | (Raised e, w') =>
      match handler e with
      | Some k => k w'
      | None => (Raised e, w')
      end
  | r => r
  end.

(** The status the process ends with: 0 when [main] returns, the argument
    of [sys.exit], and 1 after the traceback of an uncaught exception. *)
Definition exit_status {A} (o : outcome A) : Z :=
  match o with
  | Return _ => 0
  | SysExit c => c
  | Raised _ => 1
  end.

(** ** The json module *)

(** [json.dumps] and [json.loads] ([None]: the text is not JSON) on the
    values above, with the documented round trip. *)
Class JsonCodec : Type := {
  json_dumps : pyobj → string;
  json_loads : string → option pyobj;
  json_loads_dumps : ∀ v, json_loads (json_dumps v) = Some v
}.

(** ** Files *)

(** [open(path, mode)].  Reading needs a file that exists and that the
    process may open; writing creates the file or truncates it.  The
    handle returned stands for the open file and is its path. *)
Definition open_ (path : string) (m : mode) : prog string := λ w,
  let w := World (files w) (trace w ++ [Open path m]) in
  match m, files w !! path with
  | _, Some Forbidden => (Raised PermissionError, w)
  | ModeR, None => (Raised FileNotFoundError, w)
  | ModeR, Some (Regular _) => (Return path, w)
  | ModeW, _ => (Return path, World (<[path := Regular ""]> (files w)) (trace w))
  end.

(** [file_handle.read()] and [file_handle.write(text)] *)
Definition fh_read (file_handle : string) : prog string := λ w,
  match files w !! file_handle with
  | Some (Regular text) => (Return text, w)
  | _ => (Raised PermissionError, w)
  end.

Definition fh_write (file_handle : string) (text : string) : prog () := λ w,
  match files w !! file_handle with
  | Some (Regular old) =>
      (Return (),
       World (<[file_handle := Regular (old +:+ text)]> (files w)) (trace w))
  | _ => (Raised PermissionError, w)
  end.

Definition STATE_FILE : string := "state.json".

(** ** What a run is given *)

(** [parser.parse_args()] returns the namespace, with [max_humidity] an
    [int] or [None] when the flag is not given, or ends the process itself
    (status 2 on a usage error, 0 after [--help]). *)
Inductive parsed : Type :=
  | Namespace (max_humidity : option Z)
  | ParserExit (status : Z).

Record host : Type := Host {
  (** [os.environ], after [load_dotenv()] *)
  environ : gmap string string;
  (** the outcome of [parser.parse_args()] on the command line *)
  argv : parsed;
  (** [device.connect(host)]: the exception it raises, if any *)
  connect : option exn;
  (** [device.humidity] *)
  humidity : Z;
  (** [requests.post(...)] with [raise_for_status()], by title and
      message: the exception raised, if any *)
  post : string → string → option exn
}.

(** ** Python operators *)

(** [not x] for the result of [os.environ.get]: [None] and the empty
    string are false values. *)
Definition py_not (x : option string) : bool :=
  match x with
  | None => true
  | Some s => bool_decide (s = "")
  end.

(** [x <= n] and [x > n] for a loaded value [x] and an [int] [n]: defined
    on numbers ([bool] is a subclass of [int]), a [TypeError] otherwise. *)
Definition py_le (x : pyobj) (n : Z) : prog bool :=
  match x with
  | PInt z => mret (z <=? n)
  | PBool b => mret (Z.b2z b <=? n)
  | _ => raise TypeError
  end.

Definition py_gt (x : pyobj) (n : Z) : prog bool :=
  match x with
  | PInt z => mret (z >? n)
  | PBool b => mret (Z.b2z b >? n)
  | _ => raise TypeError
  end.

(** [x is None] *)
Definition is_None (x : pyobj) : bool :=
  match x with PNone => true | _ => false end.

(** [obj.get(key)]: a method of [dict] only. *)
Definition py_get (obj : pyobj) (key : string) : prog pyobj :=
  match obj with
  | PDict d => mret (default PNone (d !! key))
  | _ => raise AttributeError
  end.

(** [obj[key] = value] for a string key: [dict] takes it, the other types
    do not support it. *)
Definition py_setitem (obj : pyobj) (key : string) (value : pyobj)
    : prog pyobj :=
  match obj with
  | PDict d => mret (PDict (<[key := value]> d))
  | _ => raise TypeError
  end.

(** [if c: body] *)
Definition when (c : bool) (body : prog ()) : prog () :=
  if c then body else mret ().

Section Script.

Context `{JsonCodec}.

(** [json.dump(obj, file_handle)] *)
Definition json_dump (obj : pyobj) (file_handle : string) : prog () :=
  fh_write file_handle (json_dumps obj).

(** [json.load(file_handle)] *)
Definition json_load (file_handle : string) : prog pyobj :=
  text ← fh_read file_handle;
  match json_loads text with
  | Some v => mret v
  | None => raise JSONDecodeError
  end.

(** main.py, lines 25-27 *)
Definition save_state (state : pyobj) : prog () :=
  file_handle ← open_ STATE_FILE ModeW;
  json_dump state file_handle.

(** main.py, lines 30-35 *)
Definition load_state : prog pyobj :=
  try_except
    (file_handle ← open_ STATE_FILE ModeR;
     json_load file_handle)
    (λ e, match e with
          | FileNotFoundError => Some (mret (PDict ∅))
          | _ => None
          end).

Variable h : host.

Definition environ_get (key : string) : option string := environ h !! key.

(** main.py, lines 38-59 *)
Definition send_pushover_alert (title message : string) : prog () :=
  try_except
    (emit (Post (environ_get "PUSHOVER_APP_TOKEN")
                (environ_get "PUSHOVER_USER_TOKEN") title message);;
     match post h title message with
     | Some e => raise e
     | None => mret ()
     end)
    (λ e, match e with
          | HTTPError => Some (sys_exit 1)
          | ConnectionError => Some (sys_exit 1)
          | Timeout => Some (sys_exit 1)
          | RequestException => Some (sys_exit 1)
          | _ => None
          end).

(** [parser.parse_args()], main.py line 73 *)
Definition parse_args : prog (option Z) :=
  match argv h with
  | Namespace max_humidity => mret max_humidity
  | ParserExit status => sys_exit status
  end.

(** [device.connect(os.environ.get('DYSON_HOST'))] *)
Definition device_connect (serial credential device_type : option string)
    (host : option string) : prog () :=
  emit (Connect serial credential device_type host);;
  match connect h with
  | Some e => raise e
  | None => mret ()
  end.

(** main.py, lines 62-144 *)
Definition main : prog () :=
  max_humidity ← parse_args;
  (* Make sure the user has provided at least one alerting threshold *)
  when (bool_decide (max_humidity = None)) (sys_exit 1);;
  (* Check we have the required credentials and connection info *)
  when (py_not (environ_get "DYSON_SERIAL") ||
        py_not (environ_get "DYSON_CREDENTIAL") ||
        py_not (environ_get "DYSON_DEVICE_TYPE") ||
        py_not (environ_get "DYSON_HOST") ||
        py_not (environ_get "PUSHOVER_APP_TOKEN") ||
        py_not (environ_get "PUSHOVER_USER_TOKEN"))
       (sys_exit 1);;
  (* Connect to the device *)
  try_except
    (device_connect (environ_get "DYSON_SERIAL")
                    (environ_get "DYSON_CREDENTIAL")
                    (environ_get "DYSON_DEVICE_TYPE")
                    (environ_get "DYSON_HOST"))
    (λ e, match e with
          | DysonInvalidCredential => Some (sys_exit 1)
          | DysonConnectionRefused => Some (sys_exit 1)
          | DysonConnectTimeout => Some (sys_exit 1)
          | DysonNotConnected => Some (sys_exit 1)
          | _ => Some (sys_exit 1)
          end);;
  (* Load previous state *)
  state ← load_state;
  last_humidity ← py_get state "last_humidity";
  (* Check the device values against our alert criteria *)
  match max_humidity with
  | Some max_humidity =>
      when (humidity h >=? max_humidity)
        ((* No prev. reading or prev. reading was safe but now isn't *)
         c ← (if is_None last_humidity then mret true
              else py_le last_humidity max_humidity);
         when c
           (send_pushover_alert "Rel. humidity above threshold"
              ("Humidity is: " +:+ pretty (humidity h) +:+ "%")));;
      (* Prev. reading was above threshold but has returned to OK *)
      c ← (if humidity h <? max_humidity
           then py_gt last_humidity max_humidity
           else mret false);
      when c
        (send_pushover_alert "Rel. humidity OK"
           ("Humidity returned to OK value (" +:+ pretty (humidity h) +:+ "%)"))
  | None => mret ()
  end;;
  state ← py_setitem state "last_humidity" (PInt (humidity h));
  save_state state.

(** A run of the script from the files on disk. *)
Definition run (fs : gmap string node) : outcome () * world :=
  main (World fs []).

End Script.

(** ** Reading a run *)

(** The six variables the script requires (main.py, lines 81-86). *)
Definition required : list string :=
  ["DYSON_SERIAL"; "DYSON_CREDENTIAL"; "DYSON_DEVICE_TYPE"; "DYSON_HOST";
   "PUSHOVER_APP_TOKEN"; "PUSHOVER_USER_TOKEN"].

(** The alerts of a trace, as title and message, in the order posted. *)
Definition alerts (t : list event) : list (string * string) :=
  omap (λ e, match e with
             | Post _ _ title message => Some (title, message)
             | _ => None
             end) t.

(** An alert with this title was posted. *)
Definition fired (title : string) (t : list event) : bool :=
  bool_decide (title ∈ (alerts t).*1).

Definition RISING : string := "Rel. humidity above threshold".
Definition RECOVERY : string := "Rel. humidity OK".

(** The exceptions [send_pushover_alert] takes for a failed delivery. *)
Definition delivery_failure (e : exn) : bool :=
  match e with
  | HTTPError | ConnectionError | Timeout | RequestException => true
  | _ => false
  end.

(** The configuration passes the checks of main.py, lines 76-90, with
    threshold [max]. *)
Definition configured (h : host) (max : Z) : Prop :=
  argv h = Namespace (Some max) ∧
  Forall (λ k, ∃ s, environ h !! k = Some s ∧ s ≠ "") required.

(** The previous humidity as [state.get('last_humidity')] gives it: [None]
    when there is no previous reading. *)
Definition previous (prev : option Z) : pyobj := from_option PInt PNone prev.

Section Runs.

Context `{JsonCodec}.

(** The state file holds the record [d]; no file holds the empty record. *)
Definition holds (fs : gmap string node) (d : gmap string pyobj) : Prop :=
  match fs !! STATE_FILE with
  | None => d = ∅
  | Some (Regular text) => json_loads text = Some (PDict d)
  | Some Forbidden => False
  end.

(** The threshold check of [main] (lines 128-139) and what follows it
    (lines 141-142), as programs of their own. *)
Definition threshold_check (h : host) (max_humidity : option Z)
    (last_humidity : pyobj) : prog () :=
  match max_humidity with
  | Some max_humidity =>
      when (humidity h >=? max_humidity)
        (c ← (if is_None last_humidity then mret true
              else py_le last_humidity max_humidity);
         when c
           (send_pushover_alert h "Rel. humidity above threshold"
              ("Humidity is: " +:+ pretty (humidity h) +:+ "%")));;
      c ← (if humidity h <? max_humidity
           then py_gt last_humidity max_humidity
           else mret false);
      when c
        (send_pushover_alert h "Rel. humidity OK"
           ("Humidity returned to OK value (" +:+ pretty (humidity h) +:+ "%)"))
  | None => mret ()
  end.

Definition persist (h : host) (state : pyobj) : prog () :=
  state ← py_setitem state "last_humidity" (PInt (humidity h));
  save_state state.

(** [main] from line 122 on. *)
Definition after_connect (h : host) (max_humidity : option Z) : prog () :=
  state ← load_state;
  last_humidity ← py_get state "last_humidity";
  threshold_check h max_humidity last_humidity;;
  persist h state.

End Runs.

(** The test of main.py, lines 81-86. *)
Definition incomplete (h : host) : bool :=
  py_not (environ_get h "DYSON_SERIAL") ||
  py_not (environ_get h "DYSON_CREDENTIAL") ||
  py_not (environ_get h "DYSON_DEVICE_TYPE") ||
  py_not (environ_get h "DYSON_HOST") ||
  py_not (environ_get h "PUSHOVER_APP_TOKEN") ||
  py_not (environ_get h "PUSHOVER_USER_TOKEN").

(** The trace of a run up to the connection to the device. *)
Definition connecting (h : host) : list event :=
  [Connect (environ_get h "DYSON_SERIAL") (environ_get h "DYSON_CREDENTIAL")
           (environ_get h "DYSON_DEVICE_TYPE") (environ_get h "DYSON_HOST")].

(** What one call of [send_pushover_alert] ends with, from what
    [requests.post] and [raise_for_status] did. *)
Definition delivery (r : option exn) : outcome () :=
  match r with
  | None => Return ()
  | Some e => if delivery_failure e then SysExit 1 else Raised e
  end.

(** The trace of a run up to the threshold check. *)
Definition loaded (h : host) : list event :=
  connecting h ++ [Open STATE_FILE ModeR].

(** The two alerts of the script (lines 132-133 and 138-139), as title and
    message. *)
Definition rising_alert (h : host) : string * string :=
  ("Rel. humidity above threshold",
   "Humidity is: " +:+ pretty (humidity h) +:+ "%").

Definition recovery_alert (h : host) : string * string :=
  ("Rel. humidity OK",
   "Humidity returned to OK value (" +:+ pretty (humidity h) +:+ "%)").

(** The request [send_pushover_alert] makes for an alert, as the trace
    records it (lines 41-46). *)
Definition request (h : host) (alert : string * string) : event :=
  Post (environ_get h "PUSHOVER_APP_TOKEN")
       (environ_get h "PUSHOVER_USER_TOKEN") alert.1 alert.2.

(** The record lines 141-142 save, from the record loaded, and the files
    once it is saved. *)
Definition updated (h : host) (d : gmap string pyobj) : gmap string pyobj :=
  <["last_humidity" := PInt (humidity h)]> d.

Definition written `{JsonCodec} (h : host) (fs : gmap string node)
    (d : gmap string pyobj) : gmap string node :=
  <[STATE_FILE := Regular (json_dumps (PDict (updated h d)))]> fs.

(** ** An implementation of the json module

    The text format of [json.dumps] and [json.loads] on the values of the
    model, with strings over the code points below 256. *)

Module PyJson.

(** The double quote and the backslash. *)
Definition quote : ascii := ascii_of_N 34.
Definition backslash : ascii := ascii_of_N 92.

(** *** json.dumps *)

Definition hex_char (n : N) : ascii :=
  match n with
  | 0 => "0" | 1 => "1" | 2 => "2" | 3 => "3" | 4 => "4" | 5 => "5"
  | 6 => "6" | 7 => "7" | 8 => "8" | 9 => "9" | 10 => "a" | 11 => "b"
  | 12 => "c" | 13 => "d" | 14 => "e" | _ => "f"
  end%char%N.

(** A character of a string as [ensure_ascii] writes it: the quote and the
    backslash behind a backslash, the short escapes, [\u00XX] for the
    other characters outside the range from the space to the tilde. *)
Definition escape_char (c : ascii) : string :=
  match N_of_ascii c with
  | 34 => String backslash (String quote EmptyString)
  | 92 => String backslash (String backslash EmptyString)
  | 10 => "\n"
  | 13 => "\r"
  | 9 => "\t"
  | 8 => "\b"
  | 12 => "\f"
  | n =>
      if (n <? 32) || (126 <? n)
      then "\u00" +:+ String (hex_char (n / 16))
                        (String (hex_char (n mod 16)) EmptyString)
      else String c EmptyString
  end%N.

Fixpoint escape (s : string) : string :=
  match s with
  | EmptyString => EmptyString
  | String c s => escape_char c +:+ escape s
  end.

Definition dump_str (s : string) : string :=
  String quote (escape s +:+ String quote EmptyString).

(** [sep.join(l)] *)
Fixpoint join (sep : string) (l : list string) : string :=
  match l with
  | [] => EmptyString
  | [x] => x
  | x :: l => x +:+ sep +:+ join sep l
  end.

Definition dump_member (kv : string * string) : string :=
  dump_str kv.1 +:+ ": " +:+ kv.2.

(** [json.dumps(v)] with the default separators.  The members of an object
    come in the order of [map_to_list]: the model of [dict] keeps no
    insertion order. *)
Fixpoint dumps (v : pyobj) : string :=
  match v with
  | PNone => "null"
  | PBool true => "true"
  | PBool false => "false"
  | PInt z => pretty z
  | PStr s => dump_str s
  | PList l => "[" +:+ join ", " (dumps <$> l) +:+ "]"
  | PDict d =>
      "{" +:+ join ", " (dump_member <$> map_to_list (dumps <$> d)) +:+ "}"
  end.

(** *** json.loads *)

(** JSON white space: space, tab, line feed, carriage return. *)
Definition is_ws (c : ascii) : bool :=
  match N_of_ascii c with
  | 32 | 9 | 10 | 13 => true
  | _ => false
  end%N.

Fixpoint skip_ws (s : string) : string :=
  match s with
  | String c rest => if is_ws c then skip_ws rest else s
  | EmptyString => s
  end.

Definition digit (c : ascii) : option N :=
  let n := N_of_ascii c in
  if (48 <=? n)%N && (n <=? 57)%N then Some (n - 48)%N else None.

Definition hex_val (c : ascii) : option N :=
  let n := N_of_ascii c in
  if (48 <=? n)%N && (n <=? 57)%N then Some (n - 48)%N
  else if (97 <=? n)%N && (n <=? 102)%N then Some (n - 87)%N
  else if (65 <=? n)%N && (n <=? 70)%N then Some (n - 55)%N
  else None.

(** The character after a backslash, and the four hexadecimal digits after
    [\u]; the strings of the model hold the code points below 256. *)
Definition unescape (e : ascii) : option ascii :=
  match N_of_ascii e with
  | 34 => Some quote
  | 92 => Some backslash
  | 47 => Some "/"%char
  | 98 => Some (ascii_of_N 8)
  | 102 => Some (ascii_of_N 12)
  | 110 => Some (ascii_of_N 10)
  | 114 => Some (ascii_of_N 13)
  | 116 => Some (ascii_of_N 9)
  | _ => None
  end%N.

Definition code_point (a b c d : ascii) : option ascii :=
  a ← hex_val a; b ← hex_val b; c ← hex_val c; d ← hex_val d;
  let n := (((a * 16 + b) * 16 + c) * 16 + d)%N in
  if (n <? 256)%N then Some (ascii_of_N n) else None.

Definition push (c : ascii) (r : option (string * string))
    : option (string * string) :=
  '(s, rest) ← r; Some (String c s, rest).

(** The characters of a string up to its closing quote, and the text after
    it.  A control character must be escaped. *)
Fixpoint parse_chars (s : string) : option (string * string) :=
  match s with
  | EmptyString => None
  | String c rest =>
      if Ascii.eqb c quote then Some (EmptyString, rest)
      else if Ascii.eqb c backslash then
        match rest with
        | String "u" (String h1 (String h2 (String h3 (String h4 rest)))) =>
            c ← code_point h1 h2 h3 h4; push c (parse_chars rest)
        | String e rest => c ← unescape e; push c (parse_chars rest)
        | EmptyString => None
        end
      else if (N_of_ascii c <? 32)%N then None
      else push c (parse_chars rest)
  end.

(** An integer: an optional minus sign, then [0] or a digit that is not
    zero and more digits.  A fraction or an exponent makes the number a
    [float], which the model does not have. *)
Fixpoint read_digits (acc : N) (s : string) : N * string :=
  match s with
  | String c rest =>
      match digit c with
      | Some d => read_digits (acc * 10 + d) rest
      | None => (acc, s)
      end
  | EmptyString => (acc, s)
  end.

Definition parse_nat (s : string) : option (N * string) :=
  match s with
  | String c rest =>
      match digit c with
      | Some 0%N => Some (0%N, rest)
      | Some d => Some (read_digits d rest)
      | None => None
      end
  | EmptyString => None
  end.

Definition float_follows (s : string) : bool :=
  match s with
  | String "." _ | String "e" _ | String "E" _ => true
  | _ => false
  end.

Definition parse_int (s : string) : option (Z * string) :=
  let '(neg, s) := match s with
                   | String "-" rest => (true, rest)
                   | _ => (false, s)
                   end in
  '(n, rest) ← parse_nat s;
  if float_follows rest then None
  else Some (if neg : bool then - Z.of_N n else Z.of_N n, rest).

(** A value at the start of [s], and the text after it; the elements of a
    list after its opening bracket; the members of an object after its
    opening brace, a later member replacing an earlier one with its key.
    [fuel] bounds the depth of the calls: the length of the text is
    enough. *)
Fixpoint parse_value (fuel : nat) (s : string) : option (pyobj * string) :=
  match fuel with
  | O => None
  | S fuel =>
      match s with
      | String "n" (String "u" (String "l" (String "l" rest))) =>
          Some (PNone, rest)
      | String "t" (String "r" (String "u" (String "e" rest))) =>
          Some (PBool true, rest)
      | String "f" (String "a" (String "l" (String "s" (String "e" rest)))) =>
          Some (PBool false, rest)
      | String "[" rest =>
          let rest := skip_ws rest in
          match rest with
          | String "]" rest => Some (PList [], rest)
          | _ => '(l, rest) ← parse_elements fuel rest; Some (PList l, rest)
          end
      | String "{" rest =>
          let rest := skip_ws rest in
          match rest with
          | String "}" rest => Some (PDict ∅, rest)
          | _ => '(d, rest) ← parse_members fuel rest ∅; Some (PDict d, rest)
          end
      | String c rest =>
          if Ascii.eqb c quote
          then '(str, rest) ← parse_chars rest; Some (PStr str, rest)
          else '(z, rest) ← parse_int s; Some (PInt z, rest)
      | EmptyString => None
      end
  end
with parse_elements (fuel : nat) (s : string) : option (list pyobj * string) :=
  match fuel with
  | O => None
  | S fuel =>
      '(v, rest) ← parse_value fuel s;
      match skip_ws rest with
      | String "," rest =>
          '(l, rest) ← parse_elements fuel (skip_ws rest); Some (v :: l, rest)
      | String "]" rest => Some ([v], rest)
      | _ => None
      end
  end
with parse_members (fuel : nat) (s : string) (acc : gmap string pyobj)
    : option (gmap string pyobj * string) :=
  match fuel with
  | O => None
  | S fuel =>
      match s with
      | String c rest =>
          if Ascii.eqb c quote then
            '(key, rest) ← parse_chars rest;
            match skip_ws rest with
            | String ":" rest =>
                '(v, rest) ← parse_value fuel (skip_ws rest);
                match skip_ws rest with
                | String "," rest =>
                    parse_members fuel (skip_ws rest) (<[key := v]> acc)
                | String "}" rest => Some (<[key := v]> acc, rest)
                | _ => None
                end
            | _ => None
            end
          else None
      | EmptyString => None
      end
  end.

(** [json.loads(s)]: one value, white space around it, nothing else. *)
Definition loads (s : string) : option pyobj :=
  let s := skip_ws s in
  '(v, rest) ← parse_value (S (String.length s)) s;
  match skip_ws rest with
  | EmptyString => Some v
  | _ => None
  end.

(** *** For the proof of the round trip *)

(** What follows a value in a dump: nothing, or a delimiter. *)
Definition delimited (rest : string) : Prop :=
  match rest with
  | EmptyString => True
  | String c _ => c = ","%char ∨ c = "]"%char ∨ c = "}"%char
  end.

(** The first character of a number. *)
Definition starts_number (c : ascii) : Prop :=
  c = "-"%char ∨ ∃ d, (d < 10)%N ∧ c = pretty_N_char d.

(** The measure of the induction on values. *)
Fixpoint size (v : pyobj) : nat :=
  match v with
  | PList l => S (foldr (λ v n, size v + n)%nat 0%nat l)
  | PDict d => S (map_fold (λ _ v n, size v + n)%nat 0%nat d)
  | _ => 1%nat
  end.

(** The first character of a dump is not white space and closes no list. *)
Definition starts_value (c : ascii) : Prop :=
  is_ws c = false ∧ c ≠ "]"%char.

(** [parse_value] reads the dump of [v] back, with fuel above its length
    and whatever delimited text follows. *)
Definition roundtrips (v : pyobj) : Prop :=
  ∀ fuel rest,
    delimited rest → (String.length (dumps v) < fuel)%nat →
    parse_value fuel (dumps v +:+ rest) = Some (v, rest).

(** The text between the brackets of a list and the braces of an object. *)
Definition elements_text (l : list pyobj) : string :=
  join ", " (dumps <$> l).

Definition members_text (l : list (string * pyobj)) : string :=
  join ", " (dump_member <$> (prod_map id dumps <$> l)).

End PyJson.

(** ** Inputs of the examples *)

(** The six variables, all set. *)
Definition variables : gmap string string :=
  list_to_map
    [("DYSON_SERIAL", "A1B-EU-XYZ0000A"); ("DYSON_CREDENTIAL", "secret");
     ("DYSON_DEVICE_TYPE", "438"); ("DYSON_HOST", "192.168.1.20");
     ("PUSHOVER_APP_TOKEN", "app"); ("PUSHOVER_USER_TOKEN", "user")].

(** Pushover accepts every request, or answers every request with an
    HTTP error status. *)
Definition delivered : string → string → option exn := λ _ _, None.
Definition rejected : string → string → option exn := λ _ _, Some HTTPError.

(** A run with [--max-humidity 60] in which the device answers and
    reports this humidity. *)
Definition reading (humidity : Z) : host :=
  Host variables (Namespace (Some 60)) None humidity delivered.

(** The record with this last humidity, and a disk whose state file holds
    it. *)
Definition record (last_humidity : Z) : gmap string pyobj :=
  {["last_humidity" := PInt last_humidity]}.

Definition disk (last_humidity : Z) : gmap string node :=
  {[STATE_FILE := Regular (PyJson.dumps (PDict (record last_humidity)))]}.

(** A disk whose state file holds the dump of a value. *)
Definition disk_of (v : pyobj) : gmap string node :=
  {[STATE_FILE := Regular (PyJson.dumps v)]}.

(** * Properties *)

Section Facts.

Context `{JsonCodec}.

Implicit Types (h : host) (fs : gmap string node) (w : world) (max : Z).

(** Membership in a trace written out: split it into its cases and drop
    those where the events differ. *)
Ltac elems H :=
  lazymatch type of H with
  | _ ∈ [] => by apply elem_of_nil in H
  | _ ∈ _ :: _ =>
      apply elem_of_cons in H as [H|H]; [try discriminate H|elems H]
  | _ ∈ _ ++ _ => apply elem_of_app in H as [H|H]; [elems H|elems H]
  | _ => idtac
  end.

(** ** The pieces of a run *)

Lemma incomplete_false h :
  incomplete h = false ↔
  Forall (λ k, ∃ s, environ h !! k = Some s ∧ s ≠ "") required.
Proof.
  unfold incomplete, required, environ_get.
  rewrite !orb_false_iff, !Forall_cons, Forall_nil.
  assert (Hk : ∀ k, py_not (environ h !! k) = false ↔
                    ∃ s, environ h !! k = Some s ∧ s ≠ "").
  { intros k. unfold py_not. destruct (environ h !! k) as [s|].
    - rewrite bool_decide_eq_false. split.
      + intros Hs. by exists s.
      + by intros (s' & [= ->] & Hs).
    - split; [done|]. by intros (s & ? & _). }
  rewrite !Hk. tauto.
Qed.

Lemma incomplete_true h :
  incomplete h = true ↔
  Exists (λ k, environ h !! k = None ∨ environ h !! k = Some "") required.
Proof.
  unfold incomplete, required, environ_get.
  rewrite !orb_true_iff, !Exists_cons, Exists_nil.
  assert (Hk : ∀ k, py_not (environ h !! k) = true ↔
                    environ h !! k = None ∨ environ h !! k = Some "").
  { intros k. unfold py_not. destruct (environ h !! k) as [s|].
    - rewrite bool_decide_eq_true. split.
      + intros ->. by right.
      + by intros [|[= ->]].
    - split; [by left|done]. }
  rewrite !Hk. tauto.
Qed.

Lemma run_parser_exit h fs status :
  argv h = ParserExit status → run h fs = (SysExit status, World fs []).
Proof. intros E. unfold run, main, parse_args. by rewrite E. Qed.

Lemma run_no_threshold h fs :
  argv h = Namespace None → run h fs = (SysExit 1, World fs []).
Proof. intros E. unfold run, main, parse_args. by rewrite E. Qed.

Lemma run_incomplete h fs max_humidity :
  argv h = Namespace max_humidity → incomplete h = true →
  run h fs = (SysExit 1, World fs []).
Proof.
  intros E Hi. unfold run, main, parse_args. rewrite E.
  destruct max_humidity as [max|]; [|done].
  unfold mbind, prog_bind; cbn -[load_state]. fold (incomplete h).
  by rewrite Hi.
Qed.

Lemma run_connect_fails h fs max e :
  argv h = Namespace (Some max) → incomplete h = false →
  connect h = Some e →
  run h fs = (SysExit 1, World fs (connecting h)).
Proof.
  intros E Hi Hc. unfold run, main, parse_args. rewrite E.
  unfold mbind, prog_bind; cbn -[load_state]. fold (incomplete h).
  rewrite Hi. unfold try_except at 1, device_connect, mbind, prog_bind.
  cbn -[load_state]. rewrite Hc. by destruct e.
Qed.

Lemma run_connected h fs max :
  argv h = Namespace (Some max) → incomplete h = false →
  connect h = None →
  run h fs = after_connect h (Some max) (World fs (connecting h)).
Proof.
  intros E Hi Hc. unfold run, main, parse_args. rewrite E.
  unfold mbind, prog_bind; cbn -[load_state]. fold (incomplete h).
  rewrite Hi. unfold try_except at 1, device_connect, mbind, prog_bind.
  cbn -[load_state]. rewrite Hc. done.
Qed.

Lemma send_pushover_alert_run h title message w :
  send_pushover_alert h title message w =
    (delivery (post h title message),
     World (files w)
       (trace w ++ [Post (environ_get h "PUSHOVER_APP_TOKEN")
                         (environ_get h "PUSHOVER_USER_TOKEN") title message])).
Proof.
  unfold send_pushover_alert, try_except, mbind, prog_bind; simpl.
  by destruct (post h title message) as [[]|].
Qed.

Lemma load_state_run fs t :
  load_state (World fs t) =
    (match fs !! STATE_FILE with
     | None => Return (PDict ∅)
     | Some Forbidden => Raised PermissionError
     | Some (Regular text) =>
         match json_loads text with
         | Some v => Return v
         | None => Raised JSONDecodeError
         end
     end,
     World fs (t ++ [Open STATE_FILE ModeR])).
Proof.
  unfold load_state, try_except, json_load, open_, fh_read.
  unfold mbind, prog_bind; simpl.
  destruct (fs !! STATE_FILE) as [[text|]|] eqn:E; simpl; try done.
  rewrite E; simpl. by destruct (json_loads text).
Qed.

Lemma load_state_holds fs d t :
  holds fs d →
  load_state (World fs t) =
    (Return (PDict d), World fs (t ++ [Open STATE_FILE ModeR])).
Proof.
  rewrite load_state_run. unfold holds.
  destruct (fs !! STATE_FILE) as [[text|]|]; try done.
  - by intros ->.
  - by intros ->.
Qed.

Lemma save_state_run st fs t :
  save_state st (World fs t) =
    match fs !! STATE_FILE with
    | Some Forbidden =>
        (Raised PermissionError, World fs (t ++ [Open STATE_FILE ModeW]))
    | _ =>
        (Return (),
         World (<[STATE_FILE := Regular (json_dumps st)]> fs)
               (t ++ [Open STATE_FILE ModeW]))
    end.
Proof.
  unfold save_state, json_dump, open_, fh_write, mbind, prog_bind; simpl.
  destruct (fs !! STATE_FILE) as [[text|]|] eqn:E; simpl;
    rewrite ?lookup_insert_eq, ?insert_insert_eq; done.
Qed.

(** The threshold check on a previous reading that is a number or is
    missing. *)
Lemma threshold_check_int h max p w :
  threshold_check h (Some max) (PInt p) w =
    if humidity h >=? max then
      if p <=? max
      then send_pushover_alert h RISING
             ("Humidity is: " +:+ pretty (humidity h) +:+ "%") w
      else (Return (), w)
    else
      if p >? max
      then send_pushover_alert h RECOVERY
             ("Humidity returned to OK value (" +:+ pretty (humidity h) +:+ "%)") w
      else (Return (), w).
Proof.
  unfold threshold_check, mbind, prog_bind, RISING, RECOVERY.
  rewrite Z.geb_leb, Z.ltb_antisym.
  destruct (max <=? humidity h) eqn:E; simpl.
  - destruct (p <=? max); simpl; [|done].
    rewrite !send_pushover_alert_run.
    by destruct (delivery _) as [[]| |].
  - by destruct (p >? max).
Qed.

Lemma threshold_check_None h max w :
  threshold_check h (Some max) PNone w =
    if humidity h >=? max
    then send_pushover_alert h RISING
           ("Humidity is: " +:+ pretty (humidity h) +:+ "%") w
    else (Raised TypeError, w).
Proof.
  unfold threshold_check, mbind, prog_bind, RISING.
  rewrite Z.geb_leb, Z.ltb_antisym.
  destruct (max <=? humidity h) eqn:E; simpl; [|done].
  rewrite !send_pushover_alert_run.
  by destruct (delivery _) as [[]| |].
Qed.

Lemma threshold_check_cases h max_humidity last_humidity w :
  threshold_check h max_humidity last_humidity w = (Return (), w) ∨
  threshold_check h max_humidity last_humidity w = (Raised TypeError, w) ∨
  ∃ title message,
    threshold_check h max_humidity last_humidity w =
      send_pushover_alert h title message w.
Proof.
  destruct max_humidity as [max|]; [|by left].
  unfold threshold_check, mbind, prog_bind.
  rewrite Z.geb_leb, Z.ltb_antisym.
  destruct (max <=? humidity h); simpl.
  - assert (Hsend : ∀ title message,
      match send_pushover_alert h title message w with
      | (Return _, w') => (mret () : prog ()) w'
      | (SysExit c, w') => (SysExit c, w')
      | (Raised e, w') => (Raised e, w')
      end = send_pushover_alert h title message w).
    { intros. rewrite send_pushover_alert_run.
      by destruct (delivery _) as [[]| |]. }
    destruct last_humidity as [|b|z| | |]; simpl;
      try (by right; left);
      try (rewrite Hsend; by right; right; eexists _, _);
      match goal with |- context [?x <=? max] => destruct (x <=? max) end;
      simpl; try (by left); rewrite Hsend; by right; right; eexists _, _.
  - destruct last_humidity as [|b|z| | |]; simpl;
      try (by right; left);
      match goal with |- context [?x >? max] => destruct (x >? max) end;
      simpl; try (by left); by right; right; eexists _, _.
Qed.

Lemma after_connect_holds h fs d t max_humidity :
  holds fs d →
  after_connect h max_humidity (World fs t) =
    (threshold_check h max_humidity (default PNone (d !! "last_humidity"));;
     save_state (PDict (<["last_humidity" := PInt (humidity h)]> d)))
    (World fs (t ++ [Open STATE_FILE ModeR])).
Proof.
  intros Hd. unfold after_connect, mbind, prog_bind.
  by rewrite (load_state_holds _ _ _ Hd).
Qed.

Lemma run_ready h fs d max :
  configured h max → connect h = None → holds fs d →
  run h fs =
    (threshold_check h (Some max) (default PNone (d !! "last_humidity"));;
     save_state (PDict (<["last_humidity" := PInt (humidity h)]> d)))
    (World fs (loaded h)).
Proof.
  intros [Hargs Henv] Hconn Hd.
  rewrite (run_connected _ _ max) by (by try apply incomplete_false).
  by apply after_connect_holds.
Qed.

Lemma run_cases h fs :
  (∃ o t, run h fs = (o, World fs t) ∧ o ≠ Return () ∧
          t `prefix_of` loaded h) ∨
  (∃ max d, configured h max ∧ connect h = None ∧ holds fs d).
Proof.
  destruct (argv h) as [[max|]|status] eqn:Hargs.
  - destruct (incomplete h) eqn:Hi.
    { left. rewrite (run_incomplete _ _ _ Hargs Hi).
      eexists _, []. split_and!; [done..|]. apply prefix_nil. }
    destruct (connect h) as [e|] eqn:Hc.
    { left. rewrite (run_connect_fails _ _ _ _ Hargs Hi Hc).
      eexists _, _. split_and!; [done..|]. by apply prefix_app_r. }
    rewrite (run_connected _ _ _ Hargs Hi Hc).
    unfold after_connect, mbind, prog_bind. rewrite load_state_run.
    destruct (fs !! STATE_FILE) as [[text|]|] eqn:Hf.
    + destruct (json_loads text) as [v|] eqn:Hv.
      * destruct v as [| | | | |d];
          try (left; eexists _, _; split_and!; [done..|]; done).
        right. exists max, d. split_and!; try done.
        -- split; [done|]. by apply incomplete_false.
        -- unfold holds. by rewrite Hf.
      * left. eexists _, _. by split_and!.
    + left. eexists _, _. by split_and!.
    + right. exists max, ∅. split_and!; try done.
      * split; [done|]. by apply incomplete_false.
      * unfold holds. by rewrite Hf.
  - left. rewrite (run_no_threshold _ _ Hargs).
    eexists _, []. split_and!; [done..|]. apply prefix_nil.
  - left. rewrite (run_parser_exit _ _ _ Hargs).
    eexists _, []. split_and!; [done..|]. apply prefix_nil.
Qed.

(** Every way a configured and connected run that has loaded the record
    [d] can end. *)
Lemma ready_cases h fs d max :
  configured h max → connect h = None → holds fs d →
  let last := default PNone (d !! "last_humidity") in
  let st := PDict (<["last_humidity" := PInt (humidity h)]> d) in
  run h fs = (Raised TypeError, World fs (loaded h)) ∨
  run h fs = save_state st (World fs (loaded h)) ∨
  ∃ title message,
    threshold_check h (Some max) last (World fs (loaded h)) =
      send_pushover_alert h title message (World fs (loaded h)) ∧
    let t := loaded h ++ [Post (environ_get h "PUSHOVER_APP_TOKEN")
                               (environ_get h "PUSHOVER_USER_TOKEN")
                               title message] in
    match post h title message with
    | None => run h fs = save_state st (World fs t)
    | Some e => run h fs = (delivery (Some e), World fs t)
    end.
Proof.
  intros Hc Hconn Hd last st.
  rewrite (run_ready _ _ _ _ Hc Hconn Hd). fold last st.
  unfold mbind, prog_bind.
  destruct (threshold_check_cases h (Some max) last (World fs (loaded h)))
    as [->|[->|(title & message & Hsend)]].
  - by right; left.
  - by left.
  - right; right. exists title, message. split; [done|].
    rewrite Hsend, send_pushover_alert_run. simpl.
    destruct (post h title message) as [e|]; simpl; [|done].
    by destruct (delivery_failure e).
Qed.

(** The run when the previous reading is a number or is missing. *)
Lemma run_previous h fs d max prev :
  configured h max → connect h = None → holds fs d →
  default PNone (d !! "last_humidity") = previous prev →
  let w := World fs (loaded h) in
  let st := PDict (<["last_humidity" := PInt (humidity h)]> d) in
  let rising :=
    send_pushover_alert h RISING
      ("Humidity is: " +:+ pretty (humidity h) +:+ "%") in
  let recovery :=
    send_pushover_alert h RECOVERY
      ("Humidity returned to OK value (" +:+ pretty (humidity h) +:+ "%)") in
  run h fs =
    match prev with
    | None =>
        if humidity h >=? max then (rising;; save_state st) w
        else (Raised TypeError, w)
    | Some p =>
        if humidity h >=? max
        then if p <=? max then (rising;; save_state st) w else save_state st w
        else if p >? max then (recovery;; save_state st) w else save_state st w
    end.
Proof.
  intros Hc Hconn Hd Hlast. cbv zeta.
  rewrite (run_ready _ _ _ _ Hc Hconn Hd), Hlast.
  unfold mbind, prog_bind.
  destruct prev as [p|]; unfold previous; cbn [from_option].
  - rewrite threshold_check_int.
    by destruct (humidity h >=? max), (p <=? max), (p >? max).
  - rewrite threshold_check_None.
    by destruct (humidity h >=? max).
Qed.

Lemma alerts_save_state st w :
  alerts (trace (save_state st w).2) = alerts (trace w).
Proof.
  destruct w as [fs t]. rewrite save_state_run.
  destruct (fs !! STATE_FILE) as [[|]|]; simpl;
    unfold alerts; rewrite omap_app; simpl; by rewrite app_nil_r.
Qed.

Lemma alerts_send_save h title message st w :
  alerts (trace ((send_pushover_alert h title message;; save_state st) w).2) =
    alerts (trace w) ++ [(title, message)].
Proof.
  unfold mbind, prog_bind. rewrite send_pushover_alert_run.
  destruct (delivery _) as [[]| |].
  - rewrite alerts_save_state. simpl. unfold alerts. by rewrite omap_app.
  - simpl. unfold alerts. by rewrite omap_app.
  - simpl. unfold alerts. by rewrite omap_app.
Qed.

(** The alerts of such a run. *)
Lemma alerts_previous h fs d max prev :
  configured h max → connect h = None → holds fs d →
  default PNone (d !! "last_humidity") = previous prev →
  alerts (trace (run h fs).2) =
    if humidity h >=? max then
      if from_option (λ p, p <=? max) true prev
      then [(RISING, "Humidity is: " +:+ pretty (humidity h) +:+ "%")]
      else []
    else
      if from_option (λ p, p >? max) false prev
      then [(RECOVERY,
             "Humidity returned to OK value (" +:+ pretty (humidity h) +:+ "%)")]
      else [].
Proof.
  intros Hc Hconn Hd Hlast.
  rewrite (run_previous _ _ _ _ _ Hc Hconn Hd Hlast).
  destruct prev as [p|]; simpl;
    destruct (humidity h >=? max); try destruct (p <=? max);
    try destruct (p >? max);
    by rewrite ?alerts_send_save, ?alerts_save_state.
Qed.

(** C1.  In a run that reaches the threshold check with a previous
    humidity that is a number or is absent, the alert "Rel. humidity above
    threshold" is posted if and only if the current humidity is at or
    above [max_humidity] and the previous humidity is absent or at most
    [max_humidity]; in particular it is not posted when the previous
    humidity is above [max_humidity]. *)
Theorem rising_edge_alert_iff h fs d max (prev : option Z) :
  configured h max → connect h = None → holds fs d →
  default PNone (d !! "last_humidity") = previous prev →
  (fired RISING (trace (run h fs).2) = true ↔
   humidity h >= max ∧ (prev = None ∨ ∃ p, prev = Some p ∧ p <= max)) ∧
  (∀ p, prev = Some p → p > max → humidity h >= max →
        fired RISING (trace (run h fs).2) = false).
Proof.
  intros Hc Hconn Hd Hlast. unfold fired.
  rewrite (alerts_previous _ _ _ _ _ Hc Hconn Hd Hlast).
  destruct (Z.geb_spec (humidity h) max) as [Hge|Hlt].
  - destruct prev as [p|]; simpl.
    + destruct (Z.leb_spec p max) as [Hle|Hgt]; simpl.
      * split; [|intros ? [= <-]; lia].
        split; [|done]. intros _. split; [lia|]. right. by exists p.
      * split; [|done].
        split; [done|]. intros [_ [|(? & [= <-] & ?)]]; [done|lia].
    + split; [|done]. split; [|done]. intros _. split; [lia|]. by left.
  - split.
    + destruct (from_option (λ p, p >? max) false prev); simpl;
        (split; [done|lia]).
    + intros; lia.
Qed.

(** C2.  With no previous humidity and the current humidity below
    [max_humidity], the run posts no alert, but the comparison of line 137
    is made on [None]: the run ends with a [TypeError], status 1, and the
    state file is not written. *)
Theorem absent_previous_below_threshold_raises h fs d max :
  configured h max → connect h = None → holds fs d →
  default PNone (d !! "last_humidity") = PNone →
  humidity h < max →
  run h fs = (Raised TypeError, World fs (loaded h)) ∧
  alerts (trace (run h fs).2) = [] ∧
  exit_status (run h fs).1 = 1.
Proof.
  intros Hc Hconn Hd Hlast Hlt.
  rewrite (run_previous _ _ _ _ None Hc Hconn Hd Hlast).
  destruct (Z.geb_spec (humidity h) max); [lia|done].
Qed.

(** C6.  With a previous humidity above [max_humidity] and the current
    humidity below it, the run posts exactly one alert: the title is
    "Rel. humidity OK" and the message carries the current humidity. *)
Theorem recovery_alert_only h fs d max p :
  configured h max → connect h = None → holds fs d →
  d !! "last_humidity" = Some (PInt p) →
  humidity h < max → p > max →
  alerts (trace (run h fs).2) =
    [("Rel. humidity OK",
      "Humidity returned to OK value (" +:+ pretty (humidity h) +:+ "%)")].
Proof.
  intros Hc Hconn Hd Hlast Hlt Hgt.
  rewrite (alerts_previous _ _ _ _ (Some p) Hc Hconn Hd) by by rewrite Hlast.
  destruct (Z.geb_spec (humidity h) max); [lia|]. simpl.
  rewrite Z.gtb_ltb. by destruct (Z.ltb_spec max p); [|lia].
Qed.

(** No run posts more than one alert. *)
Lemma alerts_at_most_one h fs :
  (length (alerts (trace (run h fs).2)) ≤ 1)%nat.
Proof.
  destruct (run_cases h fs)
    as [(o & t & -> & _ & [t' Ht])|(max & d & Hc & Hconn & Hd)].
  - simpl. apply (f_equal alerts) in Ht. unfold alerts in Ht.
    rewrite omap_app in Ht. simpl in Ht. symmetry in Ht.
    apply app_eq_nil in Ht as [Ht _]. unfold alerts. rewrite Ht. simpl. lia.
  - destruct (ready_cases _ _ _ _ Hc Hconn Hd)
      as [->|[->|(title & message & _ & Hrun)]]; simpl in *.
    + lia.
    + rewrite alerts_save_state. simpl. lia.
    + destruct (post h title message) as [e|]; rewrite Hrun.
      * simpl. lia.
      * rewrite alerts_save_state. simpl. lia.
Qed.

Lemma fired_both_length t :
  fired RISING t = true → fired RECOVERY t = true →
  (2 ≤ length (alerts t))%nat.
Proof.
  unfold fired. rewrite !bool_decide_eq_true.
  destruct (alerts t) as [|[t1 m1] [|[t2 m2] l]]; simpl.
  - by intros ?%elem_of_nil.
  - intros <-%list_elem_of_singleton. by intros ?%list_elem_of_singleton.
  - lia.
Qed.

(** C3 (amended).  No run posts both alerts: the first needs the current
    humidity at or above [max_humidity] and the second needs it below, so
    a run posts at most one alert. *)
Theorem at_most_one_alert h fs :
  (length (alerts (trace (run h fs).2)) ≤ 1)%nat ∧
  ¬ (fired RISING (trace (run h fs).2) = true ∧
     fired RECOVERY (trace (run h fs).2) = true).
Proof.
  split; [apply alerts_at_most_one|].
  intros [H1 H2]. pose proof (fired_both_length _ H1 H2).
  pose proof (alerts_at_most_one h fs). lia.
Qed.

Lemma trace_save_state st fs t :
  trace (save_state st (World fs t)).2 = t ++ [Open STATE_FILE ModeW].
Proof. rewrite save_state_run. by destruct (fs !! STATE_FILE) as [[|]|]. Qed.

(** C4.  When a delivery attempt of the run fails (HTTP error, connection
    error, timeout or other request error), the run ends with
    [sys.exit(1)] before the state file is opened for writing: the files
    are what they were. *)
Theorem failed_delivery_aborts h fs token user title message e :
  Post token user title message ∈ trace (run h fs).2 →
  post h title message = Some e → delivery_failure e = true →
  (run h fs).1 = SysExit 1 ∧
  exit_status (run h fs).1 ≠ 0 ∧
  files (run h fs).2 = fs ∧
  Open STATE_FILE ModeW ∉ trace (run h fs).2.
Proof.
  intros Hin He Hfail.
  assert (Hloaded : ∀ t, t `prefix_of` loaded h →
            Post token user title message ∉ t).
  { intros t [t' Ht] Hp.
    assert (Hp' : Post token user title message ∈ loaded h)
      by (rewrite Ht; apply elem_of_app; by left).
    unfold loaded, connecting in Hp'. elems Hp'. }
  destruct (run_cases h fs)
    as [(o & t & Hrun & _ & Hpre)|(max & d & Hc & Hconn & Hd)].
  { rewrite Hrun in Hin. simpl in Hin. by apply Hloaded in Hin. }
  destruct (ready_cases _ _ _ _ Hc Hconn Hd)
    as [Hrun|[Hrun|(title' & message' & _ & Hrun)]]; simpl in Hrun.
  - rewrite Hrun in Hin. simpl in Hin. by apply Hloaded in Hin.
  - rewrite Hrun, trace_save_state in Hin.
    unfold loaded, connecting in Hin. elems Hin.
  - assert (Heq : title' = title ∧ message' = message).
    { destruct (post h title' message'); rewrite Hrun in Hin;
        rewrite ?trace_save_state in Hin; cbn [snd trace] in Hin;
        unfold loaded, connecting in Hin; elems Hin; by injection Hin. }
    destruct Heq as [-> ->]. rewrite He in Hrun. rewrite Hrun. simpl.
    rewrite Hfail. split_and!; try done.
    intros Hw. elems Hw.
Qed.

(** C5.  After a run that returns, the state file is the dump of a record
    whose [last_humidity] is the humidity read in that run, whether or not
    an alert was posted; loading the file gives that record back, so the
    next run reads this humidity as the previous one. *)
Theorem completed_run_records_humidity h fs :
  (run h fs).1 = Return () →
  ∃ d, files (run h fs).2 !! STATE_FILE =
         Some (Regular (json_dumps (PDict d))) ∧
       d !! "last_humidity" = Some (PInt (humidity h)) ∧
       holds (files (run h fs).2) d ∧
       ∀ t, ((state ← load_state; py_get state "last_humidity")
               (World (files (run h fs).2) t)).1 =
            Return (PInt (humidity h)).
Proof.
  intros Hret.
  assert (Hsave : ∀ d t,
    run h fs =
      save_state (PDict (<["last_humidity" := PInt (humidity h)]> d))
        (World fs t) →
    ∃ d, files (run h fs).2 !! STATE_FILE =
           Some (Regular (json_dumps (PDict d))) ∧
         d !! "last_humidity" = Some (PInt (humidity h)) ∧
         holds (files (run h fs).2) d ∧
         ∀ t, ((state ← load_state; py_get state "last_humidity")
                 (World (files (run h fs).2) t)).1 =
              Return (PInt (humidity h))).
  { intros d t Hrun. rewrite Hrun in Hret |- *.
    rewrite save_state_run in Hret |- *.
    exists (<["last_humidity" := PInt (humidity h)]> d).
    assert (Hd' : ∀ fs', holds
      (<[STATE_FILE := Regular (json_dumps
          (PDict (<["last_humidity" := PInt (humidity h)]> d)))]> fs')
      (<["last_humidity" := PInt (humidity h)]> d)).
    { intros fs'. unfold holds.
      by rewrite lookup_insert_eq, json_loads_dumps. }
    destruct (fs !! STATE_FILE) as [[text|]|]; simpl in *; try done.
    all: rewrite !lookup_insert_eq; split_and!; try done.
    all: intros t'; unfold mbind, prog_bind.
    all: rewrite (load_state_holds _ _ _ (Hd' _)); simpl.
    all: by rewrite lookup_insert_eq. }
  destruct (run_cases h fs)
    as [(o & t & Hrun & Ho & _)|(max & d & Hc & Hconn & Hd)].
  { rewrite Hrun in Hret. simpl in Hret. by destruct Ho. }
  destruct (ready_cases _ _ _ _ Hc Hconn Hd)
    as [Hrun|[Hrun|(title & message & _ & Hrun)]]; simpl in Hrun.
  - by rewrite Hrun in Hret.
  - by eapply Hsave.
  - destruct (post h title message) as [e|]; [|by eapply Hsave].
    rewrite Hrun in Hret. simpl in Hret. by destruct (delivery_failure e).
Qed.

(** C7.  [load_state] returns the record the file holds when the file
    exists and reads as JSON, returns the empty record when the file does
    not exist, and raises on a file it may not open or that is not JSON; a
    record that was not read from the file comes from a missing file only.
    The exception is not caught: a run that has connected ends with it. *)
Theorem load_state_outcome fs t :
  (∀ text v, fs !! STATE_FILE = Some (Regular text) →
             json_loads text = Some v →
             (load_state (World fs t)).1 = Return v) ∧
  (fs !! STATE_FILE = None →
   (load_state (World fs t)).1 = Return (PDict ∅)) ∧
  (fs !! STATE_FILE = Some Forbidden →
   (load_state (World fs t)).1 = Raised PermissionError) ∧
  (∀ text, fs !! STATE_FILE = Some (Regular text) →
           json_loads text = None →
           (load_state (World fs t)).1 = Raised JSONDecodeError) ∧
  (∀ v, (load_state (World fs t)).1 = Return v →
        (fs !! STATE_FILE = None ∧ v = PDict ∅) ∨
        ∃ text, fs !! STATE_FILE = Some (Regular text) ∧
                json_loads text = Some v) ∧
  (∀ h max e, configured h max → connect h = None →
              (load_state (World fs t)).1 = Raised e →
              run h fs = (Raised e, World fs (loaded h)) ∧
              exit_status (run h fs).1 = 1).
Proof.
  split_and!.
  - intros text v Hf Hv. by rewrite load_state_run, Hf, Hv.
  - intros Hf. by rewrite load_state_run, Hf.
  - intros Hf. by rewrite load_state_run, Hf.
  - intros text Hf Hv. by rewrite load_state_run, Hf, Hv.
  - intros v. rewrite load_state_run. simpl.
    destruct (fs !! STATE_FILE) as [[text|]|]; [|done|].
    + intros Hv. right. exists text. split; [done|].
      by destruct (json_loads text) as [?|]; simplify_eq.
    + intros [= <-]. by left.
  - intros h max e [Hargs Henv] Hconn.
    rewrite (run_connected _ _ max) by (by try apply incomplete_false).
    unfold after_connect, mbind, prog_bind.
    rewrite !load_state_run. simpl. by intros ->.
Qed.

(** C8.  [save_state record] followed by [load_state] returns [record];
    the file then holds the dump of [record] and nothing of what it held
    before. *)
Theorem save_load_roundtrip (record : pyobj) fs t :
  fs !! STATE_FILE ≠ Some Forbidden →
  ∃ w, save_state record (World fs t) = (Return (), w) ∧
       (load_state w).1 = Return record ∧
       files w = <[STATE_FILE := Regular (json_dumps record)]> fs.
Proof.
  intros Hf. rewrite save_state_run.
  eexists (World _ _).
  destruct (fs !! STATE_FILE) as [[text|]|]; try done.
  all: split; [done|]; rewrite load_state_run; simpl.
  all: by rewrite lookup_insert_eq, json_loads_dumps.
Qed.

(** C9.  When the command line gives no [--max-humidity], or one of the
    six variables is missing, the run ends with [sys.exit(1)] and an empty
    trace: before any connection to the device, any access to the state
    file and any alert. *)
Theorem missing_configuration_exits h fs max_humidity :
  argv h = Namespace max_humidity →
  max_humidity = None ∨ Exists (λ k, environ h !! k = None) required →
  run h fs = (SysExit 1, World fs []) ∧ exit_status (run h fs).1 = 1.
Proof.
  intros Hargs Hmiss.
  assert (run h fs = (SysExit 1, World fs [])) as ->; [|done].
  destruct Hmiss as [->|Hmiss]; [by apply run_no_threshold|].
  apply (run_incomplete _ _ _ Hargs), incomplete_true.
  eapply Exists_impl; [done|]. by left.
Qed.

(** C10.  A required variable set to the empty string is rejected as an
    absent one is: the run ends with [sys.exit(1)] and an empty trace, as
    it does with the variable removed from the environment. *)
Theorem empty_variable_rejected h fs max_humidity k :
  argv h = Namespace max_humidity →
  k ∈ required → environ h !! k = Some "" →
  run h fs = (SysExit 1, World fs []) ∧
  run (Host (delete k (environ h)) (argv h) (connect h) (humidity h) (post h))
      fs = run h fs.
Proof.
  intros Hargs Hk He.
  assert (run h fs = (SysExit 1, World fs [])) as ->.
  { apply (run_incomplete _ _ _ Hargs), incomplete_true.
    apply Exists_exists. exists k. split; [done|]. by right. }
  split; [done|].
  apply (run_incomplete _ _ max_humidity); [done|].
  apply incomplete_true, Exists_exists. exists k. split; [done|].
  left. simpl. apply lookup_delete_eq.
Qed.

End Facts.

(** C3 as stated fails: there is no combination for which a run posts
    both alerts. *)
Lemma both_alerts_never :
  ¬ ∃ (codec : JsonCodec) (h : host) (fs : gmap string node),
      fired RISING (trace (run h fs).2) = true ∧
      fired RECOVERY (trace (run h fs).2) = true.
Proof.
  intros (codec & h & fs & H1 & H2).
  pose proof (fired_both_length _ H1 H2).
  pose proof (alerts_at_most_one h fs). lia.
Qed.

(** * Every run, from its configuration to the state file *)

Section Shape.

Context `{JsonCodec}.

Implicit Types (h : host) (fs : gmap string node) (w : world) (max : Z).
Implicit Types (d : gmap string pyobj).

(** Membership of an event in a trace written out, case by case. *)
Ltac events H :=
  lazymatch type of H with
  | _ ∈ [] => by apply elem_of_nil in H
  | _ ∈ _ :: _ =>
      apply elem_of_cons in H as [H|H]; [try discriminate H|events H]
  | _ ∈ _ ++ _ => apply elem_of_app in H as [H|H]; [events H|events H]
  | _ => idtac
  end.

Lemma holds_inj fs d d' : holds fs d → holds fs d' → d = d'.
Proof.
  unfold holds. destruct (fs !! STATE_FILE) as [[text|]|]; [|done|].
  - intros -> [= ->]. done.
  - by intros -> ->.
Qed.

Lemma save_state_holds st fs d t :
  holds fs d →
  save_state st (World fs t) =
    (Return (),
     World (<[STATE_FILE := Regular (json_dumps st)]> fs)
           (t ++ [Open STATE_FILE ModeW])).
Proof.
  intros Hd. rewrite save_state_run. unfold holds in Hd.
  by destruct (fs !! STATE_FILE) as [[text|]|].
Qed.

(** The threshold check returns, raises on a comparison, or posts the
    alert that fits the side of the threshold the humidity is on. *)
Lemma threshold_check_sense h max last_humidity w :
  threshold_check h (Some max) last_humidity w = (Return (), w) ∨
  threshold_check h (Some max) last_humidity w = (Raised TypeError, w) ∨
  (humidity h >= max ∧
   threshold_check h (Some max) last_humidity w =
     send_pushover_alert h (rising_alert h).1 (rising_alert h).2 w) ∨
  (humidity h < max ∧
   threshold_check h (Some max) last_humidity w =
     send_pushover_alert h (recovery_alert h).1 (recovery_alert h).2 w).
Proof.
  unfold threshold_check, mbind, prog_bind, rising_alert, recovery_alert.
  rewrite Z.geb_leb, Z.ltb_antisym.
  destruct (Z.leb_spec max (humidity h)) as [Hge|Hlt]; simpl.
  - assert (Hsend : ∀ title message,
      match send_pushover_alert h title message w with
      | (Return _, w') => (mret () : prog ()) w'
      | (SysExit c, w') => (SysExit c, w')
      | (Raised e, w') => (Raised e, w')
      end = send_pushover_alert h title message w).
    { intros. rewrite send_pushover_alert_run.
      by destruct (delivery _) as [[]| |]. }
    destruct last_humidity as [|b|z| | |]; simpl;
      try (by right; left);
      try (rewrite Hsend; right; right; left; split; [lia|done]);
      match goal with |- context [?x <=? max] => destruct (x <=? max) end;
      simpl; try (by left);
      rewrite Hsend; right; right; left; (split; [lia|done]).
  - destruct last_humidity as [|b|z| | |]; simpl;
      try (by right; left);
      match goal with |- context [?x >? max] => destruct (x >? max) end;
      simpl; try (by left); right; right; right; (split; [lia|done]).
Qed.

(** An alert, then the state file. *)
Lemma send_then_save h a st fs d t :
  holds fs d →
  (send_pushover_alert h a.1 a.2;; save_state st) (World fs t) =
    match post h a.1 a.2 with
    | None =>
        (Return (),
         World (<[STATE_FILE := Regular (json_dumps st)]> fs)
               (t ++ [request h a; Open STATE_FILE ModeW]))
    | Some e => (delivery (Some e), World fs (t ++ [request h a]))
    end.
Proof.
  intros Hd. unfold mbind, prog_bind.
  rewrite send_pushover_alert_run. unfold request.
  destruct (post h a.1 a.2) as [e|]; simpl.
  - by destruct (delivery_failure e).
  - rewrite (save_state_holds _ _ _ _ Hd).
    by rewrite <-(assoc_L (++)).
Qed.

(** A run that has loaded the record [d]. *)
Lemma ready_shape h fs d max :
  configured h max → connect h = None → holds fs d →
  run h fs = (Raised TypeError, World fs (loaded h)) ∨
  run h fs =
    (Return (),
     World (written h fs d) (loaded h ++ [Open STATE_FILE ModeW])) ∨
  ∃ a, (a = rising_alert h ∧ humidity h >= max ∨
        a = recovery_alert h ∧ humidity h < max) ∧
       match post h a.1 a.2 with
       | None =>
           run h fs =
             (Return (),
              World (written h fs d)
                    (loaded h ++ [request h a; Open STATE_FILE ModeW]))
       | Some e =>
           run h fs =
             (delivery (Some e), World fs (loaded h ++ [request h a]))
       end.
Proof.
  intros Hc Hconn Hd. unfold written, updated.
  rewrite (run_ready _ _ _ _ Hc Hconn Hd).
  pose proof (send_then_save h (rising_alert h)
    (PDict (<["last_humidity" := PInt (humidity h)]> d)) fs d (loaded h) Hd)
    as Hrising.
  pose proof (send_then_save h (recovery_alert h)
    (PDict (<["last_humidity" := PInt (humidity h)]> d)) fs d (loaded h) Hd)
    as Hrecovery.
  unfold mbind, prog_bind in *.
  destruct (threshold_check_sense h max
              (default PNone (d !! "last_humidity")) (World fs (loaded h)))
    as [Hr|[Hr|[[Hge Hr]|[Hlt Hr]]]]; rewrite Hr.
  - right; left. by rewrite (save_state_holds _ _ _ _ Hd).
  - by left.
  - right; right. exists (rising_alert h). split; [by left|].
    rewrite Hrising.
    by destruct (post h (rising_alert h).1 (rising_alert h).2).
  - right; right. exists (recovery_alert h). split; [by right|].
    rewrite Hrecovery.
    by destruct (post h (recovery_alert h).1 (recovery_alert h).2).
Qed.

(** The six ways a run goes: it ends in the configuration checks, at the
    connection, with an exception before any alert, or it reaches the end
    of the threshold check, with no alert, with an alert delivered, or
    with an alert whose delivery fails. *)
Lemma run_shape h fs :
  (∃ c, run h fs = (SysExit c, World fs []) ∧
        (argv h = ParserExit c ∨ c = 1 ∧ ∃ mh, argv h = Namespace mh)) ∨
  (∃ max, configured h max ∧
     ((∃ e, connect h = Some e ∧
            run h fs = (SysExit 1, World fs (connecting h))) ∨
      (connect h = None ∧
       ((∃ e, run h fs = (Raised e, World fs (loaded h))) ∨
        (∃ d, holds fs d ∧
           (run h fs =
              (Return (),
               World (written h fs d)
                     (loaded h ++ [Open STATE_FILE ModeW])) ∨
            ∃ a, (a = rising_alert h ∧ humidity h >= max ∨
                  a = recovery_alert h ∧ humidity h < max) ∧
                 match post h a.1 a.2 with
                 | None =>
                     run h fs =
                       (Return (),
                        World (written h fs d)
                              (loaded h ++
                               [request h a; Open STATE_FILE ModeW]))
                 | Some e =>
                     run h fs =
                       (delivery (Some e),
                        World fs (loaded h ++ [request h a]))
                 end)))))).
Proof.
  destruct (argv h) as [[max|]|status] eqn:Hargs.
  - destruct (incomplete h) eqn:Hi.
    { left. exists 1. rewrite (run_incomplete _ _ _ Hargs Hi).
      split; [done|]. right. eauto. }
    assert (Hc : configured h max)
      by (split; [done|by apply incomplete_false]).
    right. exists max. split; [done|].
    destruct (connect h) as [e|] eqn:Hconn.
    { left. exists e. by rewrite (run_connect_fails _ _ _ _ Hargs Hi Hconn). }
    right. split; [done|].
    destruct (fs !! STATE_FILE) as [[text|]|] eqn:Hf.
    + destruct (json_loads text) as [v|] eqn:Hv.
      * assert (Hnd : match v with PDict _ => False | _ => True end →
                  run h fs = (Raised AttributeError, World fs (loaded h))).
        { intros Hnd.
          rewrite (run_connected _ _ _ Hargs Hi Hconn).
          unfold after_connect, mbind, prog_bind.
          rewrite load_state_run, Hf, Hv. by destruct v. }
        destruct v as [| | | | |d];
          try (left; exists AttributeError; by apply Hnd).
        assert (Hd : holds fs d) by (unfold holds; by rewrite Hf).
        destruct (ready_shape _ _ _ _ Hc Hconn Hd) as [Hr|Hr].
        -- left. by exists TypeError.
        -- right. by exists d.
      * left. exists JSONDecodeError.
        rewrite (run_connected _ _ _ Hargs Hi Hconn).
        unfold after_connect, mbind, prog_bind.
        by rewrite load_state_run, Hf, Hv.
    + left. exists PermissionError.
      rewrite (run_connected _ _ _ Hargs Hi Hconn).
      unfold after_connect, mbind, prog_bind.
      by rewrite load_state_run, Hf.
    + assert (Hd : holds fs ∅) by (unfold holds; by rewrite Hf).
      destruct (ready_shape _ _ _ _ Hc Hconn Hd) as [Hr|Hr].
      * left. by exists TypeError.
      * right. by exists ∅.
  - left. exists 1. rewrite (run_no_threshold _ _ Hargs).
    split; [done|]. right. eauto.
  - left. exists status. rewrite (run_parser_exit _ _ _ Hargs).
    split; [done|]. by left.
Qed.

Lemma configured_variables h max :
  configured h max →
  ∀ k, k ∈ required → ∃ v, environ h !! k = Some v ∧ v ≠ "".
Proof. intros [_ Henv] k Hk. by eapply Forall_forall in Henv. Qed.

Lemma holds_written h fs d : holds (written h fs d) (updated h d).
Proof.
  unfold holds, written. by rewrite lookup_insert_eq, json_loads_dumps.
Qed.

(** The files after a run: as they were when it does not return, with
    the updated record saved when it does. *)
Lemma run_files h fs :
  (run h fs).1 ≠ Return () ∧ files (run h fs).2 = fs ∨
  (run h fs).1 = Return () ∧
  ∃ d, holds fs d ∧ files (run h fs).2 = written h fs d.
Proof.
  destruct (run_shape h fs)
    as [(c & Hr & _)|(max & Hc & [(e & _ & Hr)|
          (Hconn & [(e & Hr)|(d & Hd & [Hr|(a & _ & Hr)])])])];
    try (left; by rewrite Hr).
  - right. rewrite Hr. split; [done|]. by exists d.
  - destruct (post h a.1 a.2) as [e|]; rewrite Hr.
    + left. simpl. split; [|done]. by destruct (delivery_failure e).
    + right. split; [done|]. by exists d.
Qed.

(** X1.  Whatever exception [device.connect] raises, one of the four of
    libdyson or any other, the run ends with [sys.exit(1)] right after the
    connection attempt: the state file is not opened and no alert is
    posted. *)
Theorem connect_failure_exits h fs max e :
  configured h max → connect h = Some e →
  run h fs = (SysExit 1, World fs (connecting h)) ∧
  exit_status (run h fs).1 = 1.
Proof.
  intros [Hargs Henv] Hconn.
  rewrite (run_connect_fails _ _ max e) by (by try apply incomplete_false).
  done.
Qed.

(** X2.  The actions of a run come in one order: the connection to the
    device, the read of the state file, at most one alert, the write of
    the state file.  The trace of every run is a prefix of that
    sequence. *)
Theorem trace_order h fs :
  ∃ posts, (posts = [] ∨ ∃ a, posts = [request h a]) ∧
    trace (run h fs).2 `prefix_of`
      connecting h ++ [Open STATE_FILE ModeR] ++ posts ++
      [Open STATE_FILE ModeW].
Proof.
  destruct (run_shape h fs)
    as [(c & Hr & _)|(max & Hc & [(e & _ & Hr)|
          (Hconn & [(e & Hr)|(d & Hd & [Hr|(a & _ & Hr)])])])].
  - exists []. split; [by left|]. rewrite Hr. apply prefix_nil.
  - exists []. split; [by left|]. rewrite Hr. by eexists.
  - exists []. split; [by left|]. rewrite Hr. by eexists.
  - exists []. split; [by left|]. rewrite Hr. by eexists.
  - exists [request h a]. split; [by right; exists a|].
    destruct (post h a.1 a.2); rewrite Hr; by eexists.
Qed.

(** X3.  The status of the process: the one argparse ends it with, or
    else 0 or 1, and 0 exactly when [main] returns. *)
Theorem exit_status_of_run h fs :
  match argv h with
  | ParserExit status => exit_status (run h fs).1 = status
  | Namespace _ =>
      (exit_status (run h fs).1 = 0 ∨ exit_status (run h fs).1 = 1) ∧
      (exit_status (run h fs).1 = 0 ↔ (run h fs).1 = Return ())
  end.
Proof.
  destruct (run_shape h fs)
    as [(c & Hr & Hc)|(max & [Hargs _] & [(e & _ & Hr)|
          (Hconn & [(e & Hr)|(d & Hd & [Hr|(a & _ & Hr)])])])].
  - rewrite Hr. destruct Hc as [->|[-> [mh ->]]]; [done|]. simpl.
    split; [by right|]. split; [lia|done].
  - rewrite Hargs, Hr. simpl. split; [by right|]. split; [lia|done].
  - rewrite Hargs, Hr. simpl. split; [by right|]. split; [lia|done].
  - rewrite Hargs, Hr. simpl. split; [by left|]. done.
  - rewrite Hargs. destruct (post h a.1 a.2) as [e|]; rewrite Hr; simpl.
    + destruct (delivery_failure e); simpl;
        (split; [by right|]); (split; [lia|done]).
    + split; [by left|]. done.
Qed.

(** X4.  A run that does not return, whether it exits or ends with an
    exception, leaves every file as it was. *)
Theorem failed_run_keeps_files h fs :
  (run h fs).1 ≠ Return () → files (run h fs).2 = fs.
Proof.
  intros Hret. by destruct (run_files h fs) as [[_ ?]|[? _]].
Qed.

(** X5.  No run touches a file other than the state file. *)
Theorem other_files_untouched h fs path :
  path ≠ STATE_FILE → files (run h fs).2 !! path = fs !! path.
Proof.
  intros Hpath.
  destruct (run_files h fs) as [[_ ->]|[_ (d & _ & ->)]]; [done|].
  unfold written. by rewrite lookup_insert_ne.
Qed.

(** X6.  A run that returns saves the record it loaded with
    [last_humidity] set to the humidity read: the other keys of the state
    file keep their values. *)
Theorem other_keys_preserved h fs d :
  (run h fs).1 = Return () → holds fs d →
  holds (files (run h fs).2)
        (<["last_humidity" := PInt (humidity h)]> d) ∧
  ∀ k v, k ≠ "last_humidity" → d !! k = Some v →
         ∃ d', holds (files (run h fs).2) d' ∧ d' !! k = Some v.
Proof.
  intros Hret Hd.
  destruct (run_files h fs) as [[? _]|[_ (d' & Hd' & ->)]]; [done|].
  rewrite (holds_inj _ _ _ Hd' Hd).
  split; [apply holds_written|].
  intros k v Hk Hv. exists (updated h d). split; [apply holds_written|].
  unfold updated. by rewrite lookup_insert_ne.
Qed.

(** What the run after a run that returned loads as last humidity. *)
Lemma returned_last_humidity h fs :
  (run h fs).1 = Return () →
  ∃ d, holds (files (run h fs).2) d ∧
       default PNone (d !! "last_humidity") = previous (Some (humidity h)).
Proof.
  intros Hret.
  destruct (run_files h fs) as [[? _]|[_ (d & _ & ->)]]; [done|].
  exists (updated h d). split; [apply holds_written|].
  unfold updated. by rewrite lookup_insert_eq.
Qed.

(** X7.  Two runs in a row: after a run that returned, the alert of the
    next run is decided by the humidity of the two runs and the threshold
    of the second.  At or above the threshold, the first alert is posted
    when the earlier humidity was at or below the threshold; below it,
    the second alert is posted when the earlier humidity was above. *)
Theorem next_run_alerts h1 h2 fs max :
  (run h1 fs).1 = Return () → configured h2 max → connect h2 = None →
  alerts (trace (run h2 (files (run h1 fs).2)).2) =
    if humidity h2 >=? max
    then if humidity h1 <=? max then [rising_alert h2] else []
    else if humidity h1 >? max then [recovery_alert h2] else [].
Proof.
  intros Hret Hc Hconn.
  destruct (returned_last_humidity h1 fs Hret) as (d & Hd & Hlast).
  by rewrite (alerts_previous _ _ _ _ _ Hc Hconn Hd Hlast).
Qed.

(** X8.  Once a run has returned, the comparison of line 137 has a number
    to compare: every later run that is configured and connected, and
    whose alert Pushover accepts, returns as well. *)
Theorem next_run_returns h1 h2 fs max :
  (run h1 fs).1 = Return () → configured h2 max → connect h2 = None →
  (∀ title message, post h2 title message = None) →
  (run h2 (files (run h1 fs).2)).1 = Return ().
Proof.
  intros Hret Hc Hconn Hpost.
  destruct (returned_last_humidity h1 fs Hret) as (d & Hd & Hlast).
  rewrite (run_previous _ _ _ _ _ Hc Hconn Hd Hlast).
  pose proof (send_then_save h2 (rising_alert h2)
    (PDict (<["last_humidity" := PInt (humidity h2)]> d))
    _ d (loaded h2) Hd) as Hrising.
  pose proof (send_then_save h2 (recovery_alert h2)
    (PDict (<["last_humidity" := PInt (humidity h2)]> d))
    _ d (loaded h2) Hd) as Hrecovery.
  rewrite Hpost in Hrising, Hrecovery.
  unfold rising_alert, recovery_alert in *.
  cbn [fst snd] in Hrising, Hrecovery. cbv zeta. unfold RISING, RECOVERY.
  destruct (humidity h2 >=? max), (humidity h1 <=? max),
    (humidity h1 >? max);
    by rewrite ?Hrising, ?Hrecovery, ?(save_state_holds _ _ _ _ Hd).
Qed.

(** X9.  A state file whose [last_humidity] is a string, a list or an
    object stops every run at the comparison with the threshold: a
    [TypeError], no alert, and the file stays as it is. *)
Theorem non_numeric_last_humidity_raises h fs d max v :
  configured h max → connect h = None → holds fs d →
  d !! "last_humidity" = Some v →
  match v with PStr _ | PList _ | PDict _ => True | _ => False end →
  run h fs = (Raised TypeError, World fs (loaded h)).
Proof.
  intros Hc Hconn Hd Hlast Hv.
  rewrite (run_ready _ _ _ _ Hc Hconn Hd), Hlast.
  unfold threshold_check, mbind, prog_bind.
  rewrite Z.geb_leb, Z.ltb_antisym.
  by destruct (max <=? humidity h), v.
Qed.

(** X10.  A state file that holds JSON other than an object (a list, a
    number, a string, [null]) stops every run at
    [state.get('last_humidity')]: an [AttributeError], no alert, and the
    file stays as it is. *)
Theorem state_not_object_raises h fs max text v :
  configured h max → connect h = None →
  fs !! STATE_FILE = Some (Regular text) → json_loads text = Some v →
  match v with PDict _ => False | _ => True end →
  run h fs = (Raised AttributeError, World fs (loaded h)).
Proof.
  intros [Hargs Henv] Hconn Hf Htext Hv.
  rewrite (run_connected _ _ max) by (by try apply incomplete_false).
  unfold after_connect, mbind, prog_bind.
  rewrite load_state_run, Hf, Htext. by destruct v.
Qed.

(** X11.  Every alert a run posts is one of the two of the script, with
    the humidity of the run in its message, and fits the side of the
    threshold the humidity is on: the first at or above it, the second
    below it. *)
Theorem alert_sense h fs a :
  a ∈ alerts (trace (run h fs).2) →
  ∃ max, argv h = Namespace (Some max) ∧
    (a = rising_alert h ∧ humidity h >= max ∨
     a = recovery_alert h ∧ humidity h < max).
Proof.
  intros Ha.
  destruct (run_shape h fs)
    as [(c & Hr & _)|(max & Hc & [(e & _ & Hr)|
          (Hconn & [(e & Hr)|(d & Hd & [Hr|(a' & Hsense & Hr)])])])];
    try (rewrite Hr in Ha; simpl in Ha; by apply elem_of_nil in Ha).
  exists max. split; [by destruct Hc|].
  assert (a = a') as ->; [|done].
  destruct a' as [title message]. simpl in Hr.
  destruct (post h title message); rewrite Hr in Ha; simpl in Ha;
    by apply list_elem_of_singleton in Ha.
Qed.

(** X12.  Every request to Pushover carries the two tokens of the
    environment, and neither is missing or empty. *)
Theorem posted_with_tokens h fs token user title message :
  Post token user title message ∈ trace (run h fs).2 →
  ∃ a u, token = Some a ∧ user = Some u ∧ a ≠ "" ∧ u ≠ "" ∧
         environ h !! "PUSHOVER_APP_TOKEN" = Some a ∧
         environ h !! "PUSHOVER_USER_TOKEN" = Some u.
Proof.
  intros Hin.
  destruct (run_shape h fs)
    as [(c & Hr & _)|(max & Hc & [(e & _ & Hr)|
          (Hconn & [(e & Hr)|(d & Hd & [Hr|(a' & _ & Hr)])])])];
    try (rewrite Hr in Hin; unfold loaded, connecting in Hin; simpl in Hin;
         by events Hin).
  destruct (configured_variables _ _ Hc "PUSHOVER_APP_TOKEN")
    as (a & Ha & Hane); [unfold required; set_solver|].
  destruct (configured_variables _ _ Hc "PUSHOVER_USER_TOKEN")
    as (u & Hu & Hune); [unfold required; set_solver|].
  exists a, u.
  assert (Post token user title message = request h a') as Heq.
  { destruct (post h a'.1 a'.2); rewrite Hr in Hin;
      unfold loaded, connecting in Hin; simpl in Hin; by events Hin. }
  unfold request, environ_get in Heq. rewrite Ha, Hu in Heq.
  injection Heq as -> -> _ _. done.
Qed.

(** X13.  The device is contacted with the four values of the
    environment, and none is missing or empty. *)
Theorem connected_with_credentials h fs serial credential device_type host :
  Connect serial credential device_type host ∈ trace (run h fs).2 →
  ∃ s c t a,
    serial = Some s ∧ credential = Some c ∧ device_type = Some t ∧
    host = Some a ∧ s ≠ "" ∧ c ≠ "" ∧ t ≠ "" ∧ a ≠ "" ∧
    environ h !! "DYSON_SERIAL" = Some s ∧
    environ h !! "DYSON_CREDENTIAL" = Some c ∧
    environ h !! "DYSON_DEVICE_TYPE" = Some t ∧
    environ h !! "DYSON_HOST" = Some a.
Proof.
  intros Hin.
  assert (Hc : ∃ max, configured h max ∧
            Connect serial credential device_type host =
            Connect (environ_get h "DYSON_SERIAL")
                    (environ_get h "DYSON_CREDENTIAL")
                    (environ_get h "DYSON_DEVICE_TYPE")
                    (environ_get h "DYSON_HOST")).
  { destruct (run_shape h fs)
      as [(c & Hr & _)|(max & Hc & [(e & _ & Hr)|
            (Hconn & [(e & Hr)|(d & Hd & [Hr|(a' & _ & Hr)])])])].
    - rewrite Hr in Hin. by apply elem_of_nil in Hin.
    - exists max. split; [done|]. rewrite Hr in Hin.
      unfold connecting in Hin. simpl in Hin. by events Hin.
    - exists max. split; [done|]. rewrite Hr in Hin.
      unfold loaded, connecting in Hin. simpl in Hin. by events Hin.
    - exists max. split; [done|]. rewrite Hr in Hin.
      unfold loaded, connecting in Hin. simpl in Hin. by events Hin.
    - exists max. split; [done|].
      destruct (post h a'.1 a'.2); rewrite Hr in Hin;
        unfold loaded, connecting, request in Hin; simpl in Hin;
        by events Hin. }
  destruct Hc as (max & Hc & Hconn).
  destruct (configured_variables _ _ Hc "DYSON_SERIAL")
    as (s & Hs & ?); [unfold required; set_solver|].
  destruct (configured_variables _ _ Hc "DYSON_CREDENTIAL")
    as (c & Hcr & ?); [unfold required; set_solver|].
  destruct (configured_variables _ _ Hc "DYSON_DEVICE_TYPE")
    as (t & Ht & ?); [unfold required; set_solver|].
  destruct (configured_variables _ _ Hc "DYSON_HOST")
    as (a & Ha & ?); [unfold required; set_solver|].
  exists s, c, t, a.
  unfold environ_get in Hconn. rewrite Hs, Hcr, Ht, Ha in Hconn.
  injection Hconn as -> -> -> ->. done.
Qed.

(** X14.  Running the script again with the same humidity changes
    nothing on disk: when both runs return, the files after the second
    are the files after the first. *)
Theorem rerun_keeps_files h fs :
  (run h fs).1 = Return () →
  (run h (files (run h fs).2)).1 = Return () →
  files (run h (files (run h fs).2)).2 = files (run h fs).2.
Proof.
  intros Hret1 Hret2.
  destruct (run_files h fs) as [[? _]|[_ (d & Hd & Hfs)]]; [done|].
  rewrite Hfs in Hret2 |- *.
  destruct (run_files h (written h fs d))
    as [[? _]|[_ (d' & Hd' & ->)]]; [done|].
  rewrite (holds_inj _ _ _ Hd' (holds_written h fs d)).
  unfold written, updated. by rewrite !insert_insert_eq.
Qed.

End Shape.

(** * The implementation of the json module round-trips *)

Module PyJsonFacts.

Import PyJson.

#[local] Arguments String.append !_ _ / : simpl nomatch.

Lemma append_assoc (s t u : string) : (s +:+ t) +:+ u = s +:+ (t +:+ u).
Proof. induction s as [|c s IH]; simpl; [done|]. by rewrite IH. Qed.

Lemma append_nil_r (s : string) : s +:+ EmptyString = s.
Proof. induction s as [|c s IH]; simpl; [done|]. by rewrite IH. Qed.

Lemma length_append (s t : string) :
  String.length (s +:+ t) = (String.length s + String.length t)%nat.
Proof. induction s as [|c s IH]; simpl; [done|]. by rewrite IH. Qed.

(** Strings *)

Lemma parse_chars_escape_char c t :
  parse_chars (escape_char c +:+ t) = push c (parse_chars t).
Proof. by destruct c as [[] [] [] [] [] [] [] []]. Qed.

Lemma parse_chars_escape s rest :
  parse_chars (escape s +:+ String quote rest) = Some (s, rest).
Proof.
  induction s as [|c s IH]; simpl; [done|].
  by rewrite append_assoc, parse_chars_escape_char, IH.
Qed.

(** Numbers *)

Lemma digit_pretty_N_char d :
  (d < 10)%N → digit (pretty_N_char d) = Some d.
Proof.
  intros Hd.
  assert (d = 0 ∨ d = 1 ∨ d = 2 ∨ d = 3 ∨ d = 4 ∨ d = 5 ∨ d = 6 ∨ d = 7 ∨
          d = 8 ∨ d = 9)%N
    as [->|[->|[->|[->|[->|[->|[->|[->|[->| ->]]]]]]]]] by lia; done.
Qed.

Lemma pretty_N_go_app x s t :
  pretty_N_go x s +:+ t = pretty_N_go x (s +:+ t).
Proof.
  revert s. induction (N.lt_wf_0 x) as [x _ IH]; intros s.
  destruct (decide (x = 0)%N) as [->|].
  - by rewrite !pretty_N_go_0.
  - rewrite (pretty_N_go_step x s), (pretty_N_go_step x (s +:+ t)) by lia.
    by rewrite IH by (apply N.div_lt; lia).
Qed.

(** The digits of a positive number start with a digit that is not zero,
    and reading them back gives the number. *)
Lemma read_digits_pretty_N_go x s :
  (0 < x)%N →
  ∃ d s', (0 < d < 10)%N ∧
          pretty_N_go x s = String (pretty_N_char d) s' ∧
          read_digits d s' = read_digits x s.
Proof.
  revert s. induction (N.lt_wf_0 x) as [x _ IH]; intros s Hx.
  rewrite pretty_N_go_step by done.
  destruct (decide (x `div` 10 = 0)%N) as [Hdiv|Hdiv].
  - rewrite Hdiv, pretty_N_go_0.
    assert (x < 10)%N by (apply N.div_small_iff in Hdiv; lia).
    exists x, s. rewrite N.mod_small by done. split_and!; done || lia.
  - destruct (IH (x `div` 10)%N) with
      (s := String (pretty_N_char (x `mod` 10)) s)
      as (d & s' & Hd & -> & Hread);
      [by apply N.div_lt|by apply N.neq_0_lt_0|].
    exists d, s'. split_and!; [lia..|done|]. rewrite Hread. simpl.
    rewrite digit_pretty_N_char by (by apply N.mod_lt).
    f_equal. rewrite (N.div_mod x 10) at 3 by lia. lia.
Qed.

Lemma read_digits_delimited n rest :
  delimited rest → read_digits n rest = (n, rest).
Proof. destruct rest as [|c r]; [done|]. by intros [->|[->| ->]]. Qed.

Lemma float_follows_delimited rest :
  delimited rest → float_follows rest = false.
Proof. destruct rest as [|c r]; [done|]. by intros [->|[->| ->]]. Qed.

Lemma digit_cases d :
  (d < 10)%N →
  (d = 0 ∨ d = 1 ∨ d = 2 ∨ d = 3 ∨ d = 4 ∨ d = 5 ∨ d = 6 ∨ d = 7 ∨
   d = 8 ∨ d = 9)%N.
Proof. lia. Qed.

Lemma parse_nat_pretty (x : N) rest :
  delimited rest → parse_nat (pretty x +:+ rest) = Some (x, rest).
Proof.
  intros Hrest. unfold pretty, pretty_N.
  destruct (decide (x = 0)%N) as [->|Hx]; [done|].
  rewrite pretty_N_go_app. simpl.
  destruct (read_digits_pretty_N_go x rest)
    as (d & s' & Hd & -> & Hread); [lia|].
  simpl. rewrite digit_pretty_N_char by lia.
  destruct d as [|p]; [lia|].
  by rewrite Hread, read_digits_delimited.
Qed.

Lemma pretty_N_head (x : N) :
  ∃ d s, (d < 10)%N ∧ pretty x = String (pretty_N_char d) s.
Proof.
  unfold pretty, pretty_N.
  destruct (decide (x = 0)%N) as [->|Hx]; [by exists 0%N, EmptyString|].
  destruct (read_digits_pretty_N_go x EmptyString)
    as (d & s' & Hd & -> & _); [lia|].
  exists d, s'. split; [lia|done].
Qed.

Lemma parse_int_pretty (z : Z) rest :
  delimited rest → parse_int (pretty z +:+ rest) = Some (z, rest).
Proof.
  intros Hrest. unfold pretty, pretty_Z.
  destruct z as [|p|p].
  - unfold parse_int. simpl. by rewrite float_follows_delimited.
  - change (pretty p) with (pretty (Npos p)).
    pose proof (parse_nat_pretty (Npos p) rest Hrest) as Hnat.
    destruct (pretty_N_head (Npos p)) as (d & s & Hd & Hs).
    rewrite Hs in Hnat |- *. unfold parse_int.
    assert (match String (pretty_N_char d) s +:+ rest with
            | String "-" rest => (true, rest)
            | _ => (false, String (pretty_N_char d) s +:+ rest)
            end = (false, String (pretty_N_char d) s +:+ rest)) as ->.
    { by destruct (digit_cases d Hd)
        as [->|[->|[->|[->|[->|[->|[->|[->|[->| ->]]]]]]]]]. }
    rewrite Hnat. simpl. by rewrite float_follows_delimited.
  - change (pretty p) with (pretty (Npos p)). rewrite append_assoc.
    unfold parse_int. simpl.
    rewrite (parse_nat_pretty (Npos p) rest Hrest). simpl.
    by rewrite float_follows_delimited.
Qed.

Lemma pretty_Z_head (z : Z) :
  ∃ c s, pretty z = String c s ∧ starts_number c.
Proof.
  unfold pretty, pretty_Z. destruct z as [|p|p].
  - exists "0"%char, EmptyString. split; [done|]. right. by exists 0%N.
  - destruct (pretty_N_head (Npos p)) as (d & s & Hd & Hs).
    exists (pretty_N_char d), s. split; [done|]. right. by exists d.
  - eexists _, _. split; [done|]. by left.
Qed.

Lemma parse_value_number fuel c s :
  starts_number c →
  parse_value (S fuel) (String c s) =
    '(z, rest) ← parse_int (String c s); Some (PInt z, rest).
Proof.
  intros [->|(d & Hd & ->)]; [done|].
  by destruct (digit_cases d Hd)
    as [->|[->|[->|[->|[->|[->|[->|[->|[->| ->]]]]]]]]].
Qed.

Lemma parse_value_pretty fuel (z : Z) rest :
  delimited rest →
  parse_value (S fuel) (pretty z +:+ rest) = Some (PInt z, rest).
Proof.
  intros Hrest. pose proof (parse_int_pretty z rest Hrest) as Hint.
  destruct (pretty_Z_head z) as (c & s & Hs & Hc).
  rewrite Hs in Hint |- *.
  change (String c s +:+ rest) with (String c (s +:+ rest)) in *.
  by rewrite parse_value_number, Hint.
Qed.

(** Induction on values *)

Lemma size_elem l v : v ∈ l → (size v < size (PList l))%nat.
Proof.
  simpl. induction 1 as [v l|v w l _ IH]; simpl; lia.
Qed.

Lemma size_lookup (d : gmap string pyobj) k v :
  d !! k = Some v → (size v < size (PDict d))%nat.
Proof.
  intros Hk. simpl. rewrite map_fold_foldr.
  apply elem_of_map_to_list in Hk.
  induction (map_to_list d) as [|[k' v'] l IH]; [by apply elem_of_nil in Hk|].
  apply elem_of_cons in Hk as [[= <- <-]|Hk]; simpl; [lia|].
  specialize (IH Hk). lia.
Qed.

Lemma pyobj_ind (P : pyobj → Prop) :
  P PNone → (∀ b, P (PBool b)) → (∀ z, P (PInt z)) → (∀ s, P (PStr s)) →
  (∀ l, Forall P l → P (PList l)) →
  (∀ d, map_Forall (λ _, P) d → P (PDict d)) →
  ∀ v, P v.
Proof.
  intros HNone HBool HInt HStr HList HDict v.
  remember (size v) as n eqn:Hn. revert v Hn.
  induction (lt_wf n) as [n _ IH]. intros v ->.
  destruct v as [| | | |l|d]; auto.
  - apply HList, Forall_forall. intros v Hv.
    eapply IH; [|done]. by apply size_elem.
  - apply HDict. intros k v Hk.
    eapply IH; [|done]. by eapply size_lookup.
Qed.

(** Values *)

Lemma skip_ws_head c s : is_ws c = false → skip_ws (String c s) = String c s.
Proof. intros Hc. simpl. by rewrite Hc. Qed.

Lemma dumps_head v : ∃ c s, dumps v = String c s ∧ starts_value c.
Proof.
  destruct v as [|[]|z|s|l|d]; try by eexists _, _.
  destruct (pretty_Z_head z) as (c & s & Hs & Hc).
  exists c, s. split; [done|].
  destruct Hc as [->|(d & Hd & ->)]; [done|].
  by destruct (digit_cases d Hd)
    as [->|[->|[->|[->|[->|[->|[->|[->|[->| ->]]]]]]]]].
Qed.

Ltac side := first [lia | by simpl; auto].

Lemma elements_text_cons v v' l :
  elements_text (v :: v' :: l) =
    dumps v +:+ String "," (String " " (elements_text (v' :: l))).
Proof. done. Qed.

Lemma skip_ws_dumps v rest : skip_ws (dumps v +:+ rest) = dumps v +:+ rest.
Proof.
  destruct (dumps_head v) as (c & s & -> & Hc & _). simpl. by rewrite Hc.
Qed.

Lemma skip_ws_elements_text v l rest :
  skip_ws (elements_text (v :: l) +:+ rest) = elements_text (v :: l) +:+ rest.
Proof.
  destruct l as [|v' l]; [apply skip_ws_dumps|].
  by rewrite elements_text_cons, append_assoc, skip_ws_dumps.
Qed.

Lemma parse_elements_S fuel s :
  parse_elements (S fuel) s =
    '(v, rest) ← parse_value fuel s;
    match skip_ws rest with
    | String "," rest =>
        '(l, rest) ← parse_elements fuel (skip_ws rest); Some (v :: l, rest)
    | String "]" rest => Some ([v], rest)
    | _ => None
    end.
Proof. done. Qed.

#[local] Arguments parse_value : simpl never.
#[local] Arguments parse_elements : simpl never.
#[local] Arguments parse_members : simpl never.
#[local] Arguments dumps : simpl never.
#[local] Arguments elements_text : simpl never.

Lemma parse_elements_dumps l :
  l ≠ [] → Forall roundtrips l →
  ∀ fuel rest,
    (String.length (elements_text l) + 1 < fuel)%nat →
    parse_elements fuel (elements_text l +:+ String "]" rest) = Some (l, rest).
Proof.
  intros Hl Hall. induction Hall as [|v l Hv Hall IH]; [done|].
  intros [|fuel] rest Hfuel; [lia|].
  rewrite parse_elements_S.
  destruct l as [|v' l].
  - change (elements_text [v]) with (dumps v) in *.
    by rewrite Hv by side.
  - rewrite elements_text_cons in Hfuel |- *.
    rewrite length_append in Hfuel. simpl in Hfuel.
    rewrite append_assoc. simpl.
    rewrite Hv by side. simpl.
    rewrite skip_ws_elements_text.
    by rewrite IH by side.
Qed.

Lemma members_text_cons k v kv l :
  members_text ((k, v) :: kv :: l) =
    String quote (escape k +:+ String quote
      (String ":" (String " " (dumps v +:+
         String "," (String " " (members_text (kv :: l))))))).
Proof.
  unfold members_text. simpl. unfold dump_member at 1, dump_str. simpl.
  by rewrite !append_assoc.
Qed.

Lemma members_text_one k v :
  members_text [(k, v)] =
    String quote (escape k +:+ String quote
      (String ":" (String " " (dumps v)))).
Proof.
  unfold members_text. simpl. unfold dump_member, dump_str. simpl.
  by rewrite !append_assoc.
Qed.

Lemma skip_ws_members_text kv l rest :
  skip_ws (members_text (kv :: l) +:+ rest) = members_text (kv :: l) +:+ rest.
Proof.
  destruct kv as [k v].
  destruct l as [|kv' l]; by rewrite ?members_text_one, ?members_text_cons.
Qed.

Lemma parse_members_S fuel s acc :
  parse_members (S fuel) (String quote s) acc =
    '(key, rest) ← parse_chars s;
    match skip_ws rest with
    | String ":" rest =>
        '(v, rest) ← parse_value fuel (skip_ws rest);
        match skip_ws rest with
        | String "," rest =>
            parse_members fuel (skip_ws rest) (<[key := v]> acc)
        | String "}" rest => Some (<[key := v]> acc, rest)
        | _ => None
        end
    | _ => None
    end.
Proof. done. Qed.

#[local] Arguments members_text : simpl never.
#[local] Arguments parse_chars : simpl never.

Lemma parse_members_dumps l :
  l ≠ [] → Forall (λ kv, roundtrips kv.2) l →
  ∀ fuel rest acc,
    (String.length (members_text l) + 1 < fuel)%nat →
    parse_members fuel (members_text l +:+ String "}" rest) acc =
      Some (foldl (λ m kv, <[kv.1 := kv.2]> m) acc l, rest).
Proof.
  intros Hl Hall. induction Hall as [|[k v] l Hv Hall IH]; [done|].
  intros [|fuel] rest acc Hfuel; [lia|]. simpl in Hv.
  destruct l as [|kv' l].
  - rewrite members_text_one in Hfuel |- *. simpl in Hfuel |- *.
    rewrite !length_append in Hfuel. simpl in Hfuel.
    rewrite parse_members_S, !append_assoc. simpl.
    rewrite parse_chars_escape. simpl.
    rewrite skip_ws_dumps, Hv by side. by simpl.
  - rewrite members_text_cons in Hfuel |- *. simpl in Hfuel |- *.
    rewrite !length_append in Hfuel. simpl in Hfuel.
    rewrite !length_append in Hfuel. simpl in Hfuel.
    rewrite parse_members_S, !append_assoc. simpl.
    rewrite parse_chars_escape. simpl.
    rewrite !append_assoc. simpl.
    rewrite skip_ws_dumps, Hv by side. simpl.
    rewrite skip_ws_members_text.
    by rewrite IH by side.
Qed.

Lemma foldl_insert_map_to_list (d : gmap string pyobj) :
  foldl (λ m kv, <[kv.1 := kv.2]> m) ∅ (map_to_list d) = d.
Proof.
  rewrite <-(list_to_map_to_list d) at 2.
  rewrite (list_to_map_proper (map_to_list d) (reverse (map_to_list d))).
  - rewrite <-(reverse_involutive (map_to_list d)) at 1.
    induction (reverse (map_to_list d)) as [|[k v] l IH]; [done|].
    by rewrite reverse_cons, foldl_app, IH.
  - apply NoDup_fst_map_to_list.
  - symmetry. apply reverse_Permutation.
Qed.

(** A list that is not empty does not start with the closing bracket. *)
Lemma elements_text_head v l rest :
  ∃ c s, elements_text (v :: l) +:+ rest = String c s ∧ c ≠ "]"%char.
Proof.
  destruct (dumps_head v) as (c & s & Hs & _ & Hc).
  destruct l as [|v' l].
  - change (elements_text [v]) with (dumps v). rewrite Hs. by eexists _, _.
  - rewrite elements_text_cons, Hs. by eexists _, _.
Qed.

Lemma not_closing {A} (t : string) (k : string → A) (b : A) :
  (∃ c s, t = String c s ∧ c ≠ "]"%char) →
  match t with
  | String "]" rest => k rest
  | _ => b
  end = b.
Proof.
  intros (c & s & -> & Hc).
  by destruct c as [[] [] [] [] [] [] [] []].
Qed.

Lemma not_closing_brace {A} (t : string) (k : string → A) (b : A) :
  (∃ c s, t = String c s ∧ c ≠ "}"%char) →
  match t with
  | String "}" rest => k rest
  | _ => b
  end = b.
Proof.
  intros (c & s & -> & Hc).
  by destruct c as [[] [] [] [] [] [] [] []].
Qed.

Lemma members_text_head kv l rest :
  ∃ c s, members_text (kv :: l) +:+ rest = String c s ∧ c ≠ "}"%char.
Proof.
  destruct kv as [k v].
  destruct l as [|kv' l]; rewrite ?members_text_one, ?members_text_cons;
    by eexists _, _.
Qed.

Theorem roundtrips_all v : roundtrips v.
Proof.
  induction v as [|b|z|s|l IH|d IH] using pyobj_ind;
    intros [|fuel] rest Hrest Hfuel; try lia.
  - done.
  - by destruct b.
  - by apply parse_value_pretty.
  - change (dumps (PStr s)) with (dump_str s). unfold dump_str.
    simpl. rewrite append_assoc. simpl.
    change (parse_value (S fuel) (String quote ?t))
      with ('(str, rest) ← parse_chars t; Some (PStr str, rest)).
    by rewrite parse_chars_escape.
  - change (dumps (PList l)) with ("[" +:+ elements_text l +:+ "]") in *.
    simpl in Hfuel |- *. rewrite length_append in Hfuel. simpl in Hfuel.
    rewrite append_assoc. simpl.
    destruct l as [|v l]; [done|].
    change (parse_value (S fuel) (String "[" ?t))
      with (match skip_ws t with
            | String "]" rest => Some (PList [], rest)
            | _ => '(l, rest) ← parse_elements fuel (skip_ws t);
                   Some (PList l, rest)
            end).
    rewrite skip_ws_elements_text.
    rewrite (not_closing _ (λ rest, Some (PList [], rest)) _
               (elements_text_head v l _)).
    rewrite parse_elements_dumps; [done..|side].
  - change (dumps (PDict d))
      with ("{" +:+ join ", " (dump_member <$> map_to_list (dumps <$> d))
                +:+ "}") in *.
    rewrite map_to_list_fmap in Hfuel |- *.
    fold (members_text (map_to_list d)) in Hfuel |- *.
    simpl in Hfuel |- *. rewrite length_append in Hfuel. simpl in Hfuel.
    rewrite append_assoc. simpl.
    change (parse_value (S fuel) (String "{" ?t))
      with (match skip_ws t with
            | String "}" rest => Some (PDict ∅, rest)
            | _ => '(d, rest) ← parse_members fuel (skip_ws t) ∅;
                   Some (PDict d, rest)
            end).
    pose proof (foldl_insert_map_to_list d) as Hfold.
    apply map_Forall_to_list in IH.
    destruct (map_to_list d) as [|[k v] l] eqn:Hd.
    { apply map_to_list_empty_iff in Hd as ->. done. }
    rewrite skip_ws_members_text.
    rewrite (not_closing_brace _ (λ rest, Some (PDict ∅, rest)) _
               (members_text_head (k, v) l _)).
    rewrite parse_members_dumps; [by rewrite Hfold|done| |side].
    eapply Forall_impl; [done|]. by intros [].
Qed.

Theorem loads_dumps v : loads (dumps v) = Some v.
Proof.
  assert (Hskip : skip_ws (dumps v) = dumps v).
  { pose proof (skip_ws_dumps v EmptyString) as Hs.
    by rewrite append_nil_r in Hs. }
  pose proof (roundtrips_all v (S (String.length (dumps v))) EmptyString)
    as Hv.
  rewrite append_nil_r in Hv.
  unfold loads. rewrite Hskip. cbv zeta. by rewrite Hv by (done || lia).
Qed.

End PyJsonFacts.

#[global] Instance py_json : JsonCodec := {|
  json_dumps := PyJson.dumps;
  json_loads := PyJson.loads;
  json_loads_dumps := PyJsonFacts.loads_dumps
|}.

(** * The theorems at concrete inputs *)

(** The hypothesis [configured] on a concrete host. *)
Ltac show_configured :=
  split; [reflexivity|];
  repeat constructor; eexists; (split; [reflexivity|discriminate]).

(** C1 on a first run: no state file, humidity 65 against the threshold
    60. *)
Lemma rising_edge_alert_first_run :
  (fired RISING (trace (run (reading 65) ∅).2) = true ↔
   humidity (reading 65) >= 60 ∧
   ((None : option Z) = None ∨ ∃ p, (None : option Z) = Some p ∧ p <= 60)) ∧
  (∀ p, (None : option Z) = Some p → p > 60 →
        humidity (reading 65) >= 60 →
        fired RISING (trace (run (reading 65) ∅).2) = false).
Proof.
  apply (rising_edge_alert_iff (reading 65) ∅ ∅ 60 None);
    [show_configured|reflexivity..].
Defined.

(** C2 on a first run: no state file, humidity 50 against the threshold
    60. *)
Lemma first_run_below_threshold :
  run (reading 50) ∅ = (Raised TypeError, World ∅ (loaded (reading 50))) ∧
  alerts (trace (run (reading 50) ∅).2) = [] ∧
  exit_status (run (reading 50) ∅).1 = 1.
Proof.
  apply (absent_previous_below_threshold_raises (reading 50) ∅ ∅ 60);
    [show_configured|reflexivity..].
Defined.

(** C4 when Pushover answers the alert of a first run at humidity 65 with
    an HTTP error. *)
Lemma failed_delivery_first_run :
  let h := Host variables (Namespace (Some 60)) None 65 rejected in
  (run h ∅).1 = SysExit 1 ∧
  exit_status (run h ∅).1 ≠ 0 ∧
  files (run h ∅).2 = ∅ ∧
  Open STATE_FILE ModeW ∉ trace (run h ∅).2.
Proof.
  apply (failed_delivery_aborts
           (Host variables (Namespace (Some 60)) None 65 rejected) ∅
           (Some "app") (Some "user") RISING "Humidity is: 65%" HTTPError);
    [|reflexivity..].
  vm_compute. repeat constructor.
Defined.

(** C5 on a first run at humidity 65, which returns. *)
Lemma completed_first_run :
  ∃ d, files (run (reading 65) ∅).2 !! STATE_FILE =
         Some (Regular (json_dumps (PDict d))) ∧
       d !! "last_humidity" = Some (PInt (humidity (reading 65))) ∧
       holds (files (run (reading 65) ∅).2) d ∧
       ∀ t, ((state ← load_state; py_get state "last_humidity")
               (World (files (run (reading 65) ∅).2) t)).1 =
            Return (PInt (humidity (reading 65))).
Proof.
  apply (completed_run_records_humidity (reading 65) ∅). reflexivity.
Defined.

(** C6 on the scenario of the specification: threshold 60, last humidity
    65, humidity 55. *)
Lemma recovery_alert_scenario :
  alerts (trace (run (reading 55) (disk 65)).2) =
    [("Rel. humidity OK",
      "Humidity returned to OK value (" +:+ pretty (humidity (reading 55))
        +:+ "%)")].
Proof.
  apply (recovery_alert_only (reading 55) (disk 65) (record 65) 60 65);
    [show_configured|reflexivity..].
Defined.

(** C8 when the record with last humidity 65 is saved over a file that
    holds 70. *)
Lemma save_load_over_older_record :
  ∃ w, save_state (PDict (record 65)) (World (disk 70) []) = (Return (), w) ∧
       (load_state w).1 = Return (PDict (record 65)) ∧
       files w =
         <[STATE_FILE := Regular (json_dumps (PDict (record 65)))]> (disk 70).
Proof.
  apply (save_load_roundtrip (PDict (record 65)) (disk 70) []).
  discriminate.
Defined.

(** C9 when [DYSON_HOST] is not set. *)
Lemma missing_host_variable :
  let h := Host (delete "DYSON_HOST" variables) (Namespace (Some 60))
                None 65 delivered in
  run h ∅ = (SysExit 1, World ∅ []) ∧ exit_status (run h ∅).1 = 1.
Proof.
  apply (missing_configuration_exits
           (Host (delete "DYSON_HOST" variables) (Namespace (Some 60))
                 None 65 delivered) ∅ (Some 60));
    [reflexivity|].
  right. unfold required. do 3 apply Exists_cons_tl.
  apply Exists_cons_hd. reflexivity.
Defined.

(** C10 when [PUSHOVER_USER_TOKEN] is set to the empty string. *)
Lemma empty_user_token :
  let h := Host (<["PUSHOVER_USER_TOKEN" := EmptyString]> variables)
                (Namespace (Some 60)) None 65 delivered in
  run h ∅ = (SysExit 1, World ∅ []) ∧
  run (Host (delete "PUSHOVER_USER_TOKEN" (environ h)) (argv h) (connect h)
            (humidity h) (post h)) ∅ = run h ∅.
Proof.
  apply (empty_variable_rejected
           (Host (<["PUSHOVER_USER_TOKEN" := EmptyString]> variables)
                 (Namespace (Some 60)) None 65 delivered) ∅ (Some 60)
           "PUSHOVER_USER_TOKEN");
    [reflexivity| |reflexivity].
  unfold required. repeat constructor.
Defined.

(** * Runs of the script and texts of the state file, computed *)

(** Threshold 60, no state file, humidity 65: the first alert, and a state
    file with last humidity 65. *)
Example first_reading_above_threshold :
  run (reading 65) ∅ =
    (Return (),
     World (disk 65)
       (loaded (reading 65) ++
        [Post (Some "app") (Some "user") "Rel. humidity above threshold"
              "Humidity is: 65%";
         Open STATE_FILE ModeW])).
Proof. vm_compute. reflexivity. Qed.

(** Threshold 60, last humidity 65, humidity 55: the second alert. *)
Example reading_back_below_threshold :
  run (reading 55) (disk 65) =
    (Return (),
     World (disk 55)
       (loaded (reading 55) ++
        [Post (Some "app") (Some "user") "Rel. humidity OK"
              "Humidity returned to OK value (55%)";
         Open STATE_FILE ModeW])).
Proof. vm_compute. reflexivity. Qed.

(** Threshold 60, last humidity 70, humidity 68: no alert. *)
Example reading_still_above_threshold :
  run (reading 68) (disk 70) =
    (Return (),
     World (disk 68) (loaded (reading 68) ++ [Open STATE_FILE ModeW])).
Proof. vm_compute. reflexivity. Qed.

(** The device refuses the credential: status 1, the state file is not
    opened. *)
Example credential_refused :
  run (Host variables (Namespace (Some 60)) (Some DysonInvalidCredential)
            65 delivered) (disk 70) =
    (SysExit 1, World (disk 70) (connecting (reading 65))).
Proof. vm_compute. reflexivity. Qed.

(** No [--max-humidity] on the command line; a usage error of argparse. *)
Example no_threshold :
  run (Host variables (Namespace None) None 65 delivered) ∅ =
    (SysExit 1, World ∅ []).
Proof. reflexivity. Qed.

Example usage_error :
  run (Host variables (ParserExit 2) None 65 delivered) ∅ =
    (SysExit 2, World ∅ []).
Proof. reflexivity. Qed.

(** A state file that is not JSON, one that may not be opened, and one
    that holds a list: the run ends with the exception. *)
Example state_file_corrupt :
  (run (reading 65) {[STATE_FILE := Regular "{oops"]}).1 =
    Raised JSONDecodeError.
Proof. vm_compute. reflexivity. Qed.

Example state_file_forbidden :
  (run (reading 65) {[STATE_FILE := Forbidden]}).1 = Raised PermissionError.
Proof. vm_compute. reflexivity. Qed.

Example state_file_list :
  (run (reading 65) {[STATE_FILE := Regular "[65]"]}).1 =
    Raised AttributeError.
Proof. vm_compute. reflexivity. Qed.

(** A last humidity equal to the threshold counts as safe: the alert is
    posted again while the humidity stays at the threshold. *)
Example reading_at_threshold_twice :
  alerts (trace (run (reading 60) (disk 60)).2) =
    [("Rel. humidity above threshold", "Humidity is: 60%")].
Proof. vm_compute. reflexivity. Qed.

(** Texts and the values they load as. *)
Example loads_spaced :
  PyJson.loads " [1 , -20,[ ], null]  " =
    Some (PList [PInt 1; PInt (-20); PList []; PNone]).
Proof. reflexivity. Qed.

Example loads_empty_text : PyJson.loads EmptyString = None.
Proof. reflexivity. Qed.

Example loads_trailing_comma : PyJson.loads "[1, 2,]" = None.
Proof. reflexivity. Qed.

Example loads_state_file :
  PyJson.loads (PyJson.dumps (PDict (record 65))) = Some (PDict (record 65)).
Proof. vm_compute. reflexivity. Qed.

Example dumps_list :
  PyJson.dumps (PList [PInt 65; PBool true; PNone; PList []]) =
    "[65, true, null, []]".
Proof. reflexivity. Qed.

(** * The further theorems at concrete inputs *)

(** X1 when the device raises an exception that is none of libdyson's. *)
Lemma connect_failure_unexpected :
  let h := Host variables (Namespace (Some 60)) (Some OtherException)
                65 delivered in
  run h (disk 70) = (SysExit 1, World (disk 70) (connecting h)) ∧
  exit_status (run h (disk 70)).1 = 1.
Proof.
  apply (connect_failure_exits
           (Host variables (Namespace (Some 60)) (Some OtherException)
                 65 delivered) (disk 70) 60 OtherException);
    [show_configured|reflexivity].
Defined.

(** X4 when Pushover answers with an HTTP error: the state file keeps the
    last humidity 50. *)
Lemma failed_delivery_keeps_files :
  files (run (Host variables (Namespace (Some 60)) None 65 rejected)
             (disk 50)).2 = disk 50.
Proof.
  apply (failed_run_keeps_files
           (Host variables (Namespace (Some 60)) None 65 rejected) (disk 50)).
  vm_compute. discriminate.
Defined.

(** X5 on a disk with a second file. *)
Lemma notes_untouched :
  files (run (reading 65) (<["notes.txt" := Regular "keep"]> (disk 70))).2
    !! "notes.txt" =
  (<["notes.txt" := Regular "keep"]> (disk 70)) !! "notes.txt".
Proof.
  apply (other_files_untouched (reading 65)
           (<["notes.txt" := Regular "keep"]> (disk 70)) "notes.txt").
  discriminate.
Defined.

(** X6 on a state file with a second key. *)
Lemma note_key_preserved :
  let d := <["note" := PStr "bedroom"]> (record 70) in
  holds (files (run (reading 65) (disk_of (PDict d))).2)
        (<["last_humidity" := PInt (humidity (reading 65))]> d) ∧
  ∀ k v, k ≠ "last_humidity" → d !! k = Some v →
         ∃ d', holds (files (run (reading 65) (disk_of (PDict d))).2) d' ∧
               d' !! k = Some v.
Proof.
  apply (other_keys_preserved (reading 65)
           (disk_of (PDict (<["note" := PStr "bedroom"]> (record 70))))
           (<["note" := PStr "bedroom"]> (record 70))).
  - reflexivity.
  - vm_compute. reflexivity.
Defined.

(** X7 and X8 on a first run at humidity 65 and a second at 55, with the
    threshold 60. *)
Lemma recovery_after_first_run :
  alerts (trace (run (reading 55) (files (run (reading 65) ∅).2)).2) =
    if humidity (reading 55) >=? 60
    then if humidity (reading 65) <=? 60
         then [rising_alert (reading 55)] else []
    else if humidity (reading 65) >? 60
         then [recovery_alert (reading 55)] else [].
Proof.
  apply (next_run_alerts (reading 65) (reading 55) ∅ 60);
    [reflexivity|show_configured|reflexivity].
Defined.

Lemma second_run_returns :
  (run (reading 55) (files (run (reading 65) ∅).2)).1 = Return ().
Proof.
  apply (next_run_returns (reading 65) (reading 55) ∅ 60);
    [reflexivity|show_configured|reflexivity|reflexivity].
Defined.

(** X9 on a state file whose last humidity is a string. *)
Lemma last_humidity_string :
  let fs := disk_of (PDict {["last_humidity" := PStr "65"]}) in
  run (reading 55) fs = (Raised TypeError, World fs (loaded (reading 55))).
Proof.
  apply (non_numeric_last_humidity_raises (reading 55)
           (disk_of (PDict {["last_humidity" := PStr "65"]}))
           {["last_humidity" := PStr "65"]} 60 (PStr "65"));
    [show_configured|reflexivity|vm_compute; reflexivity|reflexivity|exact I].
Defined.

(** X10 on a state file that holds a list. *)
Lemma state_file_holds_list :
  let fs := {[STATE_FILE := Regular "[65]"]} in
  run (reading 65) fs =
    (Raised AttributeError, World fs (loaded (reading 65))).
Proof.
  apply (state_not_object_raises (reading 65)
           {[STATE_FILE := Regular "[65]"]} 60 "[65]" (PList [PInt 65]));
    [show_configured|reflexivity|reflexivity|reflexivity|exact I].
Defined.

(** X11, X12 and X13 on a first run at humidity 65. *)
Lemma first_alert_sense :
  ∃ max, argv (reading 65) = Namespace (Some max) ∧
    (rising_alert (reading 65) = rising_alert (reading 65) ∧
     humidity (reading 65) >= max ∨
     rising_alert (reading 65) = recovery_alert (reading 65) ∧
     humidity (reading 65) < max).
Proof.
  apply (alert_sense (reading 65) ∅ (rising_alert (reading 65))).
  vm_compute. repeat constructor.
Defined.

Lemma first_alert_tokens :
  ∃ a u, Some "app" = Some a ∧ Some "user" = Some u ∧ a ≠ "" ∧ u ≠ "" ∧
         environ (reading 65) !! "PUSHOVER_APP_TOKEN" = Some a ∧
         environ (reading 65) !! "PUSHOVER_USER_TOKEN" = Some u.
Proof.
  apply (posted_with_tokens (reading 65) ∅ (Some "app") (Some "user")
           "Rel. humidity above threshold" "Humidity is: 65%").
  vm_compute. repeat constructor.
Defined.

Lemma first_run_credentials :
  ∃ s c t a,
    Some "A1B-EU-XYZ0000A" = Some s ∧ Some "secret" = Some c ∧
    Some "438" = Some t ∧ Some "192.168.1.20" = Some a ∧
    s ≠ "" ∧ c ≠ "" ∧ t ≠ "" ∧ a ≠ "" ∧
    environ (reading 65) !! "DYSON_SERIAL" = Some s ∧
    environ (reading 65) !! "DYSON_CREDENTIAL" = Some c ∧
    environ (reading 65) !! "DYSON_DEVICE_TYPE" = Some t ∧
    environ (reading 65) !! "DYSON_HOST" = Some a.
Proof.
  apply (connected_with_credentials (reading 65) ∅
           (Some "A1B-EU-XYZ0000A") (Some "secret") (Some "438")
           (Some "192.168.1.20")).
  vm_compute. repeat constructor.
Defined.

(** X14 on two runs at humidity 65. *)
Lemma second_run_same_files :
  files (run (reading 65) (files (run (reading 65) ∅).2)).2 =
  files (run (reading 65) ∅).2.
Proof.
  apply (rerun_keeps_files (reading 65) ∅); reflexivity.
Defined.
